(** * Prayer counter (Garko01/prayer-counter): a shallow embedding of
    [src/App.tsx] and of its older sibling, with the properties of the
    counter core, the daily ledger, the streak calculator, the hold-to-repeat
    controller, the day-rollover check, the storage loaders, the history
    overlay and the bead track.

    Conventions of the embedding.
    - The tally ([count]) and the ledger totals are JavaScript numbers,
      that is doubles.  The core is modelled on the integer-valued ones, in
      [Z]; a sum or difference is rounded as a double rounds it
      ([Double.round]), which changes nothing up to 2^53 in size and loses
      the low bits beyond.  What the loader can read back from storage is a
      wider type, [Storage.number].
    - A [Date] object is its local calendar fields together with its local
      time of day; the host's time zone, which decides what a date setter
      makes of a local time the zone skips, is a parameter ([Clock.Zone]).
    - Objects that React compares by identity (the [history] state) carry the
      address they were allocated at; a spread [{...h, [k]: v}] allocates.
    - Host built-ins ([Number], [JSON.parse], [navigator.vibrate], timers,
      [localStorage]) are parameters or small explicit models; each one says
      so where it is introduced. *)

From stdpp Require Import gmap strings list fin_maps sorting pretty.
From Stdlib Require Import ZArith Lia Ascii QArith Qcanon.

#[local] Open Scope Z_scope.

(* ===================================================================== *)
(** * Part I: the program                                                 *)
(* ===================================================================== *)

(** ** [src/types.ts] and the [Settings] type of [App.tsx] *)

Record DayLog := { date : string; total : Z }.

(** [History = Record<string, DayLog>], as an immutable object tagged with
    the address it lives at, so that [Object.is] can be modelled. *)
Record History := { addr : nat; entries : gmap string DayLog }.

Record Settings := {
  vibrate : bool;
  vibrateMs : Z;
  autoResetAfterLog : bool;
  hapticsOnDecrement : bool
}.

Definition defaultSettings : Settings :=
  {| vibrate := true; vibrateMs := 10;
     autoResetAfterLog := true; hapticsOnDecrement := false |}.

(** ** Arithmetic on integer-valued doubles *)

Module Double.

(** The distance between neighbouring doubles around the integer [x]: 1 up
    to 2^53 in size, and 2^(e - 52) for a size in [2^e, 2^(e+1)). *)
Definition spacing (x : Z) : Z :=
  if Z.abs x <? 2 ^ 53 then 1 else 2 ^ (Z.log2 (Z.abs x) - 52).

(** The double nearest to the integer [x], the one with the even
    significand when [x] lies half way between two: what [a + b] and
    [a - b] give for integer-valued doubles [a] and [b] whose exact sum or
    difference is [x].  (Sizes stay below 2^1024: no overflow.) *)
Definition round (x : Z) : Z :=
  let u := spacing x in
  let q := x / u in
  let r := x mod u in
  if 2 * r <? u then q * u
  else if u <? 2 * r then (q + 1) * u
  else if Z.even q then q * u
  else (q + 1) * u.

(** [Number.isSafeInteger] on an integer. *)
Definition safe (x : Z) : Prop := Z.abs x ≤ 2 ^ 53 - 1.

End Double.

(** ** The component state of [App] and its observable effects *)

Module Core.

Inductive Direction := inc | dec.

(** What the component does to the outside world. *)
Inductive Effect :=
| Vibrate (ms : Z)
| SaveCount (n : Z)
| SaveHistory (h : History)
| SaveSettings (s : Settings).

Record App := {
  count : Z;
  history : History;
  settings : Settings;
  direction : Direction;
  heapNext : nat;            (* next free object address *)
  canVibrate : bool;         (* ['vibrate' in navigator] *)
  log : list Effect          (* effects so far, oldest first *)
}.

Definition setCount (f : Z → Z) (s : App) : App :=
  {| count := f (count s); history := history s; settings := settings s;
     direction := direction s; heapNext := heapNext s;
     canVibrate := canVibrate s; log := log s |}.

Definition setDirection (d : Direction) (s : App) : App :=
  {| count := count s; history := history s; settings := settings s;
     direction := d; heapNext := heapNext s;
     canVibrate := canVibrate s; log := log s |}.

(** [setHistory(u)]: the updater receives the address a fresh object would
    get; the allocator moves on whether or not the updater allocated. *)
Definition setHistory (u : nat → History → History) (s : App) : App :=
  {| count := count s; history := u (heapNext s) (history s);
     settings := settings s; direction := direction s;
     heapNext := S (heapNext s);
     canVibrate := canVibrate s; log := log s |}.

Definition emit (e : Effect) (s : App) : App :=
  {| count := count s; history := history s; settings := settings s;
     direction := direction s; heapNext := heapNext s;
     canVibrate := canVibrate s; log := log s ++ [e] |}.

(** [vibrate(ms = settings.vibrateMs)] *)
Definition doVibrate (s : App) : App :=
  if negb (vibrate (settings s)) then s
  else if canVibrate s then emit (Vibrate (vibrateMs (settings s))) s
  else s.

(** [increment(step = 1)] *)
Definition increment (step : Z) (s : App) : App :=
  doVibrate (setCount (λ c, Z.max 0 (Double.round (c + step)))
                      (setDirection inc s)).

(** [decrement(step = 1)] *)
Definition decrement (step : Z) (s : App) : App :=
  let s := setCount (λ c, Z.max 0 (Double.round (c - step)))
                    (setDirection dec s) in
  if hapticsOnDecrement (settings s) then doVibrate s else s.

(** [reset()] *)
Definition reset (s : App) : App := setCount (λ _, 0) s.

(** The spread [{ ...h, [key]: v }]. *)
Definition spreadWith (fresh : nat) (h : History) (key : string) (v : DayLog)
  : History :=
  {| addr := fresh; entries := <[key := v]> (entries h) |}.

(** The updater of the [useEffect(..., [count])] that mirrors the tally
    into the ledger:
      [const prev = h[key]?.total ?? -1; if (prev === count) return h;
       return { ...h, [key]: { date: key, total: count } }] *)
Definition upsert (key : string) (cnt : Z) (fresh : nat) (h : History)
  : History :=
  let prev := match entries h !! key with Some r => total r | None => -1 end in
  if prev =? cnt then h
  else spreadWith fresh h key {| date := key; total := cnt |}.

(** The body of that effect; [cnt] is the tally of the render the effect
    closed over, [key] is [todayKey()]. *)
Definition countEffect (key : string) (cnt : Z) (s : App) : App :=
  if cnt <? 0 then s else setHistory (upsert key cnt) s.

(** [checkDayChange]; [seen] is the [history] of the render the effect
    closed over, the update itself goes through the functional updater. *)
Definition checkDayChange (key : string) (seen : History) (s : App) : App :=
  match entries seen !! key with
  | Some _ => s
  | None =>
      setHistory (λ fresh h, spreadWith fresh h key {| date := key; total := 0 |})
                 (setCount (λ _, 0) s)
  end.

(** [clearToday]: [const { [key]: _, ...rest } = history; setHistory(rest)] *)
Definition clearToday (key : string) (s : App) : App :=
  match entries (history s) !! key with
  | None => s
  | Some _ =>
      setHistory (λ fresh _,
                    {| addr := fresh; entries := delete key (entries (history s)) |})
                 s
  end.

(** One commit: the effects of [App], in the order they are declared, run
    when their dependency changed ([dc]: [count], [dh]: [history], [ds]:
    [settings]).  All of them close over the rendered state [s]. *)
Definition runEffects (key : string) (dc dh ds : bool) (s : App) : App :=
  let r := s in
  let s := if dc then emit (SaveCount (count r)) s else s in
  let s := if dh then emit (SaveHistory (history r)) s else s in
  let s := if ds then emit (SaveSettings (settings r)) s else s in
  let s := if dc then countEffect key (count r) s else s in
  let s := if dh then checkDayChange key (history r) s else s in
  s.

(** [Object.is] on the three pieces of state. *)
Definition countChanged (a b : App) : bool := negb (count a =? count b).
Definition historyChanged (a b : App) : bool :=
  negb (addr (history a) =? addr (history b))%nat.

(** Re-render until no state changed: [prev] is what the last render saw,
    [cur] the state now. [None] when [fuel] renders were not enough. *)
Fixpoint settle (fuel : nat) (key : string) (prev cur : App) : option App :=
  let dc := countChanged prev cur in
  let dh := historyChanged prev cur in
  if negb (dc || dh) then Some cur
  else match fuel with
       | O => None
       | S fuel => settle fuel key cur (runEffects key dc dh false cur)
       end.

(** An event handler followed by the renders it causes. *)
Definition dispatch (fuel : nat) (key : string) (handler : App → App) (s : App)
  : option App :=
  settle fuel key s (handler s).

(** The first render: every effect runs, then the renders they cause. *)
Definition mount (fuel : nat) (key : string) (s : App) : option App :=
  settle fuel key s (runEffects key true true true s).

(** Addresses are handed out in increasing order: the ledger in the state
    lives below the next free address. *)
Definition wellFormed (s : App) : Prop := (addr (history s) < heapNext s)%nat.

Inductive Op := OpInc (step : Z) | OpDec (step : Z).

Definition applyOp (o : Op) : App → App :=
  match o with OpInc k => increment k | OpDec k => decrement k end.


Definition runOps (ops : list Op) (s : App) : App :=
  fold_left (λ s o, applyOp o s) ops s.

End Core.

(** ** Calendar dates: the local fields of a [Date] *)

Module Calendar.

(** A local calendar date as [getFullYear()], [getMonth()] (0..11) and
    [getDate()] (1..31) report it.  The calendar is the proleptic Gregorian
    one, unbounded in both directions.  The [Date] objects themselves, with
    their time of day, are in [Clock] below. *)
Record Date := { getFullYear : Z; getMonth : Z; getDate : Z }.

Definition isLeapYear (y : Z) : bool :=
  (y mod 4 =? 0) && (negb (y mod 100 =? 0) || (y mod 400 =? 0)).

Definition daysInMonth (y m : Z) : Z :=
  if m =? 1 then (if isLeapYear y then 29 else 28)
  else if (m =? 3) || (m =? 5) || (m =? 8) || (m =? 10) then 30
  else 31.

(** The dates [new Date()] can report. *)
Definition validDate (d : Date) : Prop :=
  0 ≤ getMonth d ≤ 11 ∧ 1 ≤ getDate d ≤ daysInMonth (getFullYear d) (getMonth d).

(** The calendar day before [d], the day a setter computes for
    [getDate() - 1]: day 0 of a month is the last day of the month before
    it. *)
Definition previousDay (d : Date) : Date :=
  if 1 <? getDate d then
    {| getFullYear := getFullYear d; getMonth := getMonth d;
       getDate := getDate d - 1 |}
  else if 0 <? getMonth d then
    {| getFullYear := getFullYear d; getMonth := getMonth d - 1;
       getDate := daysInMonth (getFullYear d) (getMonth d - 1) |}
  else
    {| getFullYear := getFullYear d - 1; getMonth := 11; getDate := 31 |}.

Fixpoint repeatChar (n : nat) (c : ascii) : string :=
  match n with
  | O => ""
  | S n => String c (repeatChar n c)
  end.

(** [s.padStart(n, c)] for a one-character filler. *)
Definition padStart (n : nat) (c : ascii) (s : string) : string :=
  repeatChar (n - String.length s) c +:+ s.

(** [todayKeyForDate(d)]; [String(n)] of an integer is its decimal
    numeral, [pretty]. *)
Definition todayKeyForDate (d : Date) : string :=
  let y := getFullYear d in
  let m := padStart 2 "0"%char (pretty (getMonth d + 1)) in
  let day := padStart 2 "0"%char (pretty (getDate d)) in
  pretty y +:+ "-" +:+ m +:+ "-" +:+ day.

(** [todayKey()], given what [new Date()] returned. *)
Definition todayKey (now : Date) : string :=
  let d := now in
  let y := getFullYear d in
  let m := padStart 2 "0"%char (pretty (getMonth d + 1)) in
  let day := padStart 2 "0"%char (pretty (getDate d)) in
  pretty y +:+ "-" +:+ m +:+ "-" +:+ day.

(** The date [n] days before [d]. *)
Definition daysBefore (n : nat) (d : Date) : Date := Nat.iter n previousDay d.

(** A number that grows with the date (not a day count). *)
Definition rank (d : Date) : Z :=
  (getFullYear d * 12 + getMonth d) * 31 + getDate d.

(** A month or day field, [String(n).padStart(2, '0')]. *)
Definition twoDigitField (n : Z) : string := padStart 2 "0" (pretty n).

(** Reading a two-digit field back. *)
Definition twoDigits (s : string) : option Z :=
  match s with
  | String a (String b EmptyString) =>
      Some (10 * (Z.of_N (N_of_ascii a) - 48) + (Z.of_N (N_of_ascii b) - 48))
  | _ => None
  end.

End Calendar.

(** ** [Date] objects and the host's time zone *)

Module Clock.
Import Calendar.

(** A [Date] object as the program reads it: its local calendar fields and
    its local time of day, in milliseconds since local midnight. *)
Record Moment := { fields : Date; timeInDay : Z }.

(** The host's time zone, as far as a date setter depends on it.  A setter
    computes local calendar fields, keeps the local time of day, and the
    object becomes the instant that has this local time; [zone m] is what
    the getters report afterwards.  It is [m] itself when the zone has the
    local time [m], and a later local time when the zone skips [m] (the
    clocks were put forward over it). *)
Definition Zone : Type := Moment → Moment.

(** [d.setDate(d.getDate() - 1)] *)
Definition setDatePrev (zone : Zone) (d : Moment) : Moment :=
  zone {| fields := previousDay (fields d); timeInDay := timeInDay d |}.



(** With the time of day of [d], the day [i] days before [d] is reached by
    one setter call: the zone has that local time, or skips it within the
    day. *)
Definition lands (zone : Zone) (d : Moment) (i : nat) : Prop :=
  fields (zone {| fields := daysBefore i (fields d); timeInDay := timeInDay d |})
  = daysBefore i (fields d).

(** A zone that never moves a skipped local time onto another day. *)
Definition keepsDay (zone : Zone) : Prop := ∀ m, fields (zone m) = fields m.


End Clock.

(** ** The streak calculator *)

Module Streak.
Import Calendar Clock.

(** [Object.keys(history).sort()] *)
Definition sortedKeys (h : History) : list string :=
  merge_sort String.le (elements (dom (entries h))).

(** [d => (history[d].total ?? 0) > 0] *)
Definition positiveTotal (h : History) (d : string) : bool :=
  match entries h !! d with
  | Some r => 0 <? total r
  | None => false
  end.

(** The [while (true)] loop of [calcStreak]; [fuel] bounds the number of
    times its body runs, [None] when that was not enough to reach [break]. *)
Fixpoint walk (zone : Zone) (fuel : nat) (set : gset string) (cursor : Moment)
    (streak : nat) : option nat :=
  match fuel with
  | O => None
  | S fuel =>
      let key := todayKeyForDate (fields cursor) in
      if bool_decide (key ∈ set)
      then walk zone fuel set (setDatePrev zone cursor) (S streak)
      else Some streak
  end.

(** [calcStreak()], given the ledger, the host's zone and what [new Date()]
    returned. *)
Definition calcStreak (zone : Zone) (fuel : nat) (h : History) (now : Moment)
  : option nat :=
  let dates := sortedKeys h in
  if (List.length dates =? 0)%nat then Some O
  else
    let set : gset string :=
      list_to_set (List.filter (positiveTotal h) dates) in
    let todayHas := bool_decide (todayKey (fields now) ∈ set) in
    let cursor := if negb todayHas then setDatePrev zone now else now in
    walk zone fuel set cursor O.

(** The words of the specification: a date qualifies when its recorded
    total is strictly greater than 0. *)
Definition qualifies (h : History) (d : Date) : Prop :=
  ∃ r, entries h !! todayKeyForDate d = Some r ∧ 0 < total r.


(** The set [calcStreak] builds, the cursor its walk starts at, and the
    calendar day the walk of the specification starts at. *)
Definition streakSet (h : History) : gset string :=
  list_to_set (List.filter (positiveTotal h) (sortedKeys h)).

Definition cursorStart (zone : Zone) (h : History) (now : Moment) : Moment :=
  if bool_decide (todayKey (fields now) ∈ streakSet h) then now
  else setDatePrev zone now.


(** The record the program writes for the day before [now] by [i] days. *)
Definition dayKey (i : nat) (now : Date) : string :=
  todayKeyForDate (daysBefore i now).

(** The set of qualifying date keys of a ledger. *)
Definition qualifyingKeys (h : History) : gset string :=
  dom (filter (λ kv : string * DayLog, 0 < total kv.2) (entries h)).

End Streak.

(** ** The host's timers, and one hold-to-repeat controller *)

Module Timers.

(** The closures the program hands to [setTimeout] and [setInterval]. *)
Inductive Callback :=
| ArmRepeat       (* () => { ref.current.repeat = window.setInterval(fn, 150) } *)
| TickThenArm     (* () => { fn(); ref.current.repeat = window.setInterval(fn, 150) } *)
| Tick.           (* fn *)

Inductive Kind := Timeout | Interval (period : Z).

Record Timer := { handle : nat; due : Z; kind : Kind; callback : Callback }.

(** [type HoldState = { delay: number | null; repeat: number | null }] *)
Record HoldState := { delay : option nat; repeat : option nat }.

(** One controller (one [ref] and the [fn] bound to it) in front of the
    host's timer table.  Time is counted in whole milliseconds; [ticks]
    lists the instants at which [fn] ran, oldest first. *)
Record World := {
  now : Z;
  timers : list Timer;       (* in the order they were registered *)
  nextHandle : nat;
  ref : HoldState;
  ticks : list Z
}.

Definition setRef (r : HoldState) (w : World) : World :=
  {| now := now w; timers := timers w; nextHandle := nextHandle w;
     ref := r; ticks := ticks w |}.

Definition setTimers (ts : list Timer) (w : World) : World :=
  {| now := now w; timers := ts; nextHandle := nextHandle w;
     ref := ref w; ticks := ticks w |}.

(** [fn()] *)
Definition fn (w : World) : World :=
  {| now := now w; timers := timers w; nextHandle := nextHandle w;
     ref := ref w; ticks := ticks w ++ [now w] |}.

Definition register (k : Kind) (cb : Callback) (ms : Z) (w : World)
  : nat * World :=
  (nextHandle w,
   {| now := now w;
      timers := timers w ++
        [{| handle := nextHandle w; due := now w + ms; kind := k; callback := cb |}];
      nextHandle := S (nextHandle w);
      ref := ref w; ticks := ticks w |}).

(** [window.setTimeout(cb, ms)] and [window.setInterval(cb, ms)] *)
Definition setTimeout (cb : Callback) (ms : Z) : World → nat * World :=
  register Timeout cb ms.
Definition setInterval (cb : Callback) (ms : Z) : World → nat * World :=
  register (Interval ms) cb ms.

(** [clearTimeout(h)] / [clearInterval(h)]: one table, and clearing a
    handle that is not in it does nothing. *)
Definition clearTimer (h : nat) (w : World) : World :=
  setTimers (List.filter (λ t, negb (handle t =? h)%nat) (timers w)) w.

Definition runCallback (cb : Callback) (w : World) : World :=
  let arm (w : World) :=
    let '(h, w) := setInterval Tick 150 w in
    setRef {| delay := delay (ref w); repeat := Some h |} w in
  match cb with
  | Tick => fn w
  | ArmRepeat => arm w
  | TickThenArm => arm (fn w)
  end.

(** The host delivers the firing of timer [h]: nothing runs unless [h] is
    still registered; a timeout leaves the table, an interval is
    scheduled again. *)
Definition fire (h : nat) (w : World) : World :=
  match List.find (λ t, (handle t =? h)%nat) (timers w) with
  | None => w
  | Some t =>
      let w :=
        match kind t with
        | Timeout => clearTimer h w
        | Interval p =>
            setTimers
              (List.map (λ u, if (handle u =? h)%nat
                              then {| handle := handle u; due := due u + p;
                                      kind := kind u; callback := callback u |}
                              else u) (timers w)) w
        end in
      runCallback (callback t) w
  end.

Definition dueHandles (w : World) : list nat :=
  List.map handle (List.filter (λ t, due t <=? now w) (timers w)).

Definition later (w : World) : World :=
  {| now := now w + 1; timers := timers w; nextHandle := nextHandle w;
     ref := ref w; ticks := ticks w |}.

(** One millisecond passes; the timers that are due then fire, in the
    order they were registered. *)
Definition tick1 (w : World) : World :=
  let w := later w in
  fold_left (λ w h, fire h w) (dueHandles w) w.

Definition elapse (ms : nat) (w : World) : World := Nat.iter ms tick1 w.

(** The release half, the same in both variants. *)
Definition clearBoth (w : World) : World :=
  let w :=
    match delay (ref w) with
    | Some h => setRef {| delay := None; repeat := repeat (ref w) |} (clearTimer h w)
    | None => w
    end in
  match repeat (ref w) with
  | Some h => setRef {| delay := delay (ref w); repeat := None |} (clearTimer h w)
  | None => w
  end.

(** No session: both handles are [null] and no timer is registered. *)
Definition idle (w : World) : Prop :=
  timers w = [] ∧ ref w = {| delay := None; repeat := None |}.

(** The instants [from + step], [from + 2*step], ..., [n] of them. *)
Fixpoint every (n : nat) (step from : Z) : list Z :=
  match n with
  | O => []
  | S n => (from + step) :: every n step (from + step)
  end.

End Timers.

(** [src/App.tsx]: an immediate tick, then a delayed repeat. *)
Module Hold.
Import Timers.

Definition startHold (w : World) : World :=
  let w := fn w in
  let '(h, w) := setTimeout ArmRepeat 300 w in
  setRef {| delay := Some h; repeat := repeat (ref w) |} w.

Definition stopHold (w : World) : World := clearBoth w.

(** The armed states of the specification's machine, as they show in the
    timer table and in the ref: one pending delay, or one running repeat
    (the ref still holding the handle of the delay that fired). *)
Definition armedShort (h : nat) (d : Z) (w : World) : Prop :=
  timers w = [{| handle := h; due := d; kind := Timeout; callback := ArmRepeat |}] ∧
  ref w = {| delay := Some h; repeat := None |}.

Definition armedRepeat (h0 h : nat) (d : Z) (w : World) : Prop :=
  timers w = [{| handle := h; due := d; kind := Interval 150; callback := Tick |}] ∧
  ref w = {| delay := Some h0; repeat := Some h |}.

(** The pointer events of the button, and the passing of time. *)
Inductive Gesture := Press | Release | Wait (ms : nat).

Definition step (w : World) (g : Gesture) : World :=
  match g with
  | Press => startHold w
  | Release => stopHold w
  | Wait ms => elapse ms w
  end.

Definition run (gs : list Gesture) (w : World) : World := fold_left step gs w.

(** The state of the machine, given whether the button is down. *)
Definition session (pressed : bool) (w : World) : Prop :=
  if pressed
  then (∃ h d, armedShort h d w) ∨ (∃ h0 h d, armedRepeat h0 h d w)
  else idle w.

(** Every press is released before the next one. *)
Fixpoint alternating (pressed : bool) (gs : list Gesture) : bool :=
  match gs with
  | [] => true
  | Press :: gs => negb pressed && alternating true gs
  | Release :: gs => alternating false gs
  | Wait _ :: gs => alternating pressed gs
  end.

End Hold.

(** The older sibling of [App.tsx]: nothing on press, one tick on a short
    release, the first repeat tick when the delay fires. *)
Module HoldLegacy.
Import Timers.

Definition startHold (w : World) : World :=
  let '(h, w) := setTimeout TickThenArm 300 w in
  setRef {| delay := Some h; repeat := repeat (ref w) |} w.

Definition stopHold (w : World) : World :=
  let hadDelay := bool_decide (delay (ref w) ≠ None) in
  let hadRepeat := bool_decide (repeat (ref w) ≠ None) in
  let w := if hadDelay && negb hadRepeat then fn w else w in
  clearBoth w.

End HoldLegacy.

(** ** Values read back from storage, and the three loaders *)

Module Storage.

(** A JavaScript number.  Finite values are kept as exact rationals: the
    loaders only test finiteness, truthiness and sign, never arithmetic.
    (Negative zero is not told apart from zero.) *)
Inductive number :=
| NaN
| Infinity (negative : bool)
| Finite (q : Qc).

(** [Number.isFinite(n)] *)
Definition isFinite (n : number) : bool :=
  match n with
  | Finite _ => true
  | _ => false
  end.

Definition ofZ (z : Z) : number := Finite (Qc_of_Z z).

(** The tally invariant of the specification, on a loaded number. *)
Definition isNonNegativeInteger (n : number) : Prop :=
  ∃ z : Z, 0 ≤ z ∧ n = ofZ z.

(** What [JSON.parse] can return. *)
#[local] Unset Elimination Schemes.
Inductive JSValue :=
| JNull
| JBool (b : bool)
| JNumber (n : number)
| JString (s : string)
| JArray (xs : list JSValue)
| JObject (fields : gmap string JSValue).
#[local] Set Elimination Schemes.

(** A call either returns or throws. *)
Inductive Outcome (A : Type) :=
| Returns (a : A)
| Throws.
Arguments Returns {A} a.
Arguments Throws {A}.

Definition bind {A B} (m : Outcome A) (k : A → Outcome B) : Outcome B :=
  match m with
  | Returns a => k a
  | Throws => Throws
  end.

(** [try { body } catch { return handler }] *)
Definition tryCatch {A} (body : Outcome A) (handler : A) : Outcome A :=
  match body with
  | Returns a => Returns a
  | Throws => Returns handler
  end.

(** The host functions the loaders call. *)
Record Host := {
  getItem : string → Outcome (option string);   (* localStorage.getItem *)
  parse : string → Outcome JSValue;             (* JSON.parse *)
  toNumber : string → number                    (* Number(raw) *)
}.

Definition COUNT : string := "japa.count".
Definition HISTORY : string := "japa.history".
Definition SETTINGS : string := "japa.settings".

(** Truthiness of [raw], a string or [null]. *)
Definition truthyRaw (raw : option string) : bool :=
  match raw with
  | Some (String _ _) => true
  | _ => false
  end.

(** Truthiness of a parsed value. *)
Definition truthy (v : JSValue) : bool :=
  match v with
  | JNull => false
  | JBool b => b
  | JNumber NaN => false
  | JNumber (Infinity _) => true
  | JNumber (Finite q) => negb (bool_decide (q = 0%Qc))
  | JString s => negb (bool_decide (s = ""))
  | JArray _ | JObject _ => true
  end.

(** [loadNumber(key, fallback = 0)] *)
Definition loadNumber (host : Host) (key : string) (fallback : number)
  : Outcome number :=
  bind (getItem host key) (λ raw,
    let n := match raw with
             | Some s => if truthyRaw raw then toNumber host s else fallback
             | None => fallback
             end in
    Returns (if isFinite n then n else fallback)).

(** The own enumerable properties a spread [...v] copies. *)
Definition spreadProps (v : JSValue) : gmap string JSValue :=
  match v with
  | JObject fields => fields
  | JArray xs =>
      list_to_map (imap (λ i x, (pretty i, x)) xs)
  | JString s =>
      list_to_map (imap (λ i c, (pretty i, JString (String c ""))) (String.list_ascii_of_string s))
  | _ => ∅
  end.

(** [loadHistory()] *)
Definition loadHistory (host : Host) : Outcome JSValue :=
  tryCatch
    (bind (getItem host HISTORY) (λ raw,
       match raw with
       | Some s =>
           if negb (truthyRaw raw) then Returns (JObject ∅)
           else bind (parse host s) (λ obj,
                  Returns (if truthy obj then obj else JObject ∅))
       | None => Returns (JObject ∅)
       end))
    (JObject ∅).

(** [defaultSettings], as the object it is at run time. *)
Definition settingsObject (s : Settings) : gmap string JSValue :=
  {[ "vibrate" := JBool (vibrate s);
     "vibrateMs" := JNumber (ofZ (vibrateMs s));
     "autoResetAfterLog" := JBool (autoResetAfterLog s);
     "hapticsOnDecrement" := JBool (hapticsOnDecrement s) ]}.

(** [{ ...a, ...b }]: the properties of [b] win. *)
Definition spread2 (a b : gmap string JSValue) : gmap string JSValue := b ∪ a.

(** [loadSettings()] *)
Definition loadSettings (host : Host) : Outcome (gmap string JSValue) :=
  tryCatch
    (bind (getItem host SETTINGS) (λ raw,
       match raw with
       | Some s =>
           if truthyRaw raw
           then bind (parse host s) (λ p,
                  Returns (spread2 (settingsObject defaultSettings) (spreadProps p)))
           else Returns (settingsObject defaultSettings)
       | None => Returns (settingsObject defaultSettings)
       end))
    (settingsObject defaultSettings).

(** A decimal numeral with an optional minus sign, the shape [String(n)]
    has for an integer [n]. *)
Definition digit (c : ascii) : option Z :=
  let n := Z.of_N (N_of_ascii c) in
  if (48 <=? n) && (n <=? 57) then Some (n - 48) else None.

Fixpoint digits (acc : Z) (s : string) : option Z :=
  match s with
  | EmptyString => Some acc
  | String c s =>
      match digit c with
      | Some d => digits (10 * acc + d) s
      | None => None
      end
  end.

(** An instance of [Number(raw)] for the examples: right on the decimal
    numerals of integers below 2^53 in size, with or without a minus sign,
    on the empty string and on text that is no numeric literal at all.  It
    does not cover the rest of the literal grammar (fractions, exponents,
    radix prefixes, a plus sign, surrounding white space), where it
    answers [NaN], and it does not round longer numerals to a double; the
    theorems are stated for every host and use this instance only in
    examples where it is right. *)
Definition integerLiteral (s : string) : number :=
  match s with
  | EmptyString => ofZ 0
  | String "-" (String c r) =>
      match digits 0 (String c r) with
      | Some z => ofZ (- z)
      | None => NaN
      end
  | _ =>
      match digits 0 s with
      | Some z => ofZ z
      | None => NaN
      end
  end.

(** A host whose storage holds [store], whose [JSON.parse] knows the texts
    listed in [parses] and throws on every other text. *)
Definition tableHost (store : gmap string string)
    (parses : gmap string JSValue) : Host :=
  {| getItem := λ k, Returns (store !! k);
     parse := λ s, match parses !! s with
                   | Some v => Returns v
                   | None => Throws
                   end;
     toNumber := integerLiteral |}.

(** A stored value that is missing, empty or not parseable (or a store
    that cannot be read at all). *)
Definition unreadable (host : Host) (key : string) : Prop :=
  getItem host key = Throws ∨
  getItem host key = Returns None ∨
  getItem host key = Returns (Some "") ∨
  ∃ raw, getItem host key = Returns (Some raw) ∧ parse host raw = Throws.

(** The double quote, and a quoted JSON string. *)
Definition dquote : string := String (ascii_of_nat 34) "".
Definition quoted (s : string) : string := dquote +:+ s +:+ dquote.

End Storage.

(** ** Sample data for the examples *)

Module Samples.
Import Core.

Definition ledger (a : nat) (l : list (string * Z)) : History :=
  {| addr := a;
     entries := list_to_map (List.map (λ kt, (kt.1, {| date := kt.1; total := kt.2 |})) l) |}.

Definition app (c : Z) (h : History) : App :=
  {| count := c; history := h; settings := defaultSettings; direction := inc;
     heapNext := S (addr h); canVibrate := true; log := [] |}.

Definition idleWorld : Timers.World :=
  {| Timers.now := 1000; Timers.timers := []; Timers.nextHandle := 1;
     Timers.ref := {| Timers.delay := None; Timers.repeat := None |};
     Timers.ticks := [] |}.

(** Storage with a negative count, a truncated history and settings
    written by a version that knew only [vibrate]. *)
Definition oldSettingsText : string :=
  "{" +:+ Storage.quoted "vibrate" +:+ ":false}".

Definition staleHost : Storage.Host :=
  Storage.tableHost
    {[ Storage.COUNT := "-5";
       Storage.HISTORY := "{" +:+ Storage.quoted "2024-03-01" +:+ ":{";
       Storage.SETTINGS := oldSettingsText ]}
    {[ oldSettingsText :=
         Storage.JObject {[ "vibrate" := Storage.JBool false ]} ]}.

Definition tidyHost : Storage.Host :=
  Storage.tableHost
    {[ Storage.COUNT := "7"; Storage.HISTORY := "{}" ]}
    {[ "{}" := Storage.JObject ∅ ]}.

Definition emptyHost : Storage.Host := Storage.tableHost ∅ ∅.

(** 1 March 2024; the day before is 29 February. *)
Definition march1 : Calendar.Date :=
  {| Calendar.getFullYear := 2024; Calendar.getMonth := 2; Calendar.getDate := 1 |}.

(** A [Date] at [hh]:[mm] local time on the day [d]. *)
Definition at_ (d : Calendar.Date) (hh mm : Z) : Clock.Moment :=
  {| Clock.fields := d; Clock.timeInDay := (hh * 60 + mm) * 60000 |}.

(** A zone without clock changes, such as UTC. *)
Definition utc : Clock.Zone := λ m, m.





End Samples.

(** ** The user's actions, and what the component keeps true across them *)

Module Actions.
Import Core.

(** The [keydown] listener [onKey]; [e.key.toLowerCase() === 'r'] holds for
    the keys ["r"] and ["R"] and for no other. *)
Definition onKey (targetIsButton : bool) (k : string) (s : App) : App :=
  if targetIsButton then s
  else if bool_decide (k = "ArrowUp" ∨ k = "+") then increment 1 s
  else if bool_decide (k = "ArrowDown" ∨ k = "-") then decrement 1 s
  else if bool_decide (k = "r" ∨ k = "R") then reset s
  else s.

(** What can happen to the mounted component: a tick of the + or the -
    button ([fn] is called without argument, so the step is 1), the reset
    and "clear today" buttons, a key, the 60 s rollover interval. *)
Inductive Action :=
| TickPlus
| TickMinus
| ClickReset
| ClickClearToday
| KeyDown (targetIsButton : bool) (k : string)
| RolloverCheck.

Definition handler (key : string) (a : Action) (s : App) : App :=
  match a with
  | TickPlus => increment 1 s
  | TickMinus => decrement 1 s
  | ClickReset => reset s
  | ClickClearToday => clearToday key s
  | KeyDown b k => onKey b k s
  | RolloverCheck => checkDayChange key (history s) s
  end.

Definition act (fuel : nat) (key : string) (a : Action) (s : App) : option App :=
  dispatch fuel key (handler key a) s.

Fixpoint actAll (fuel : nat) (key : string) (acts : list Action) (s : App)
  : option App :=
  match acts with
  | [] => Some s
  | a :: acts =>
      match act fuel key a s with
      | Some s' => actAll fuel key acts s'
      | None => None
      end
  end.

(** Today's record holds the tally. *)
Definition ledgerHoldsTally (key : string) (s : App) : Prop :=
  total <$> entries (history s) !! key = Some (count s).

(** The value [saveNumber] / [saveHistory] wrote last. *)
Definition lastSaveCount (l : list Effect) : option Z :=
  fold_left (λ acc e, match e with SaveCount n => Some n | _ => acc end) l None.
Definition lastSaveHistory (l : list Effect) : option History :=
  fold_left (λ acc e, match e with SaveHistory h => Some h | _ => acc end) l None.

(** Storage holds the tally and the ledger of the state. *)
Definition synced (s : App) : Prop :=
  lastSaveCount (log s) = Some (count s) ∧
  lastSaveHistory (log s) = Some (history s).

(** What one commit writes. *)
Definition saves (dc dh : bool) (s : App) : list Effect :=
  (if dc then [SaveCount (count s)] else []) ++
  (if dh then [SaveHistory (history s)] else []).

(** The state the component is in between events. *)
Definition atRest (key : string) (s : App) : Prop :=
  wellFormed s ∧ ledgerHoldsTally key s ∧ synced s.

(** The number of haptic pulses a sequence of operations asks for. *)
Definition pulses (hapticsOnDec : bool) (ops : list Op) : nat :=
  List.length (List.filter (λ o, match o with
                                 | OpInc _ => true
                                 | OpDec _ => hapticsOnDec
                                 end) ops).

(** A state at rest on 1 March 2024 with a tally of 3. *)
Definition restingApp : App :=
  let h := {| addr := 0;
              entries := {[ "2024-03-01" := {| date := "2024-03-01"; total := 3 |};
                            "2024-02-29" := {| date := "2024-02-29"; total := 7 |} ]} |} in
  {| count := 3; history := h; settings := defaultSettings; direction := inc;
     heapNext := 1; canVibrate := true;
     log := [SaveCount 3; SaveHistory h] |}.

End Actions.

(** ** The history overlay *)

Module HistoryView.
Import Calendar Clock.

(** The calendar day a setter computes for day [n] of the month of [d],
    for [n] up to the current day of the month: day [n] of the month when
    [n] is 1 or more, and otherwise the day [1 - n] days before the first
    of the month. *)
Definition dayOfMonth (n : Z) (d : Date) : Date :=
  if 1 <=? n then
    {| getFullYear := getFullYear d; getMonth := getMonth d; getDate := n |}
  else
    daysBefore (Z.to_nat (1 - n))
      {| getFullYear := getFullYear d; getMonth := getMonth d; getDate := 1 |}.

(** [d.setDate(n)], for such an [n]. *)
Definition setDateBack (zone : Zone) (n : Z) (d : Moment) : Moment :=
  zone {| fields := dayOfMonth n (fields d); timeInDay := timeInDay d |}.

(** Row [i] of the overlay:
      [const d = new Date(); d.setDate(d.getDate() - i);
       const key = todayKeyForDate(d); const total = history[key]?.total ?? 0] *)
Definition row (zone : Zone) (h : History) (now : Moment) (i : nat)
  : string * Z :=
  let d := setDateBack zone (getDate (fields now) - Z.of_nat i) now in
  let key := todayKeyForDate (fields d) in
  (key, match entries h !! key with Some r => total r | None => 0 end).

(** [Array.from({ length: 14 }).map((_, i) => ...)] *)
Definition rows (zone : Zone) (h : History) (now : Moment)
  : list (string * Z) :=
  List.map (row zone h now) (seq 0 14).

End HistoryView.

(** ** The bead track ([BeadTrack]) *)

Module Beads.
Import Core.

(** A bead of the track: the element's identity and whether it carries the
    [glow] class. *)
Record Bead := { ident : nat; glow : bool }.

Definition beadGap : Z := 40.
Definition beadCount : nat := 5.

(** The beads the mount effect appends to the emptied container. *)
Definition createBeads : list Bead :=
  (λ i, {| ident := i; glow := false |}) <$> seq 0 beadCount.

Definition removeGlow (b : Bead) : Bead := {| ident := ident b; glow := false |}.
Definition addGlow (b : Bead) : Bead := {| ident := ident b; glow := true |}.

(** The index [applyGlow(current)] lights among [n] beads, if any.  [%] is
    the truncating remainder, [Math.floor] of the halved integer is the
    floored quotient; [current - 106] is the double the host computes, the
    other sums are small and exact; an index outside the list lights
    nothing. *)
Definition glowIndex (n : Z) (current : Z) : option Z :=
  let mid := (n - 1) / 2 in
  if current =? 0 then
    if (0 <=? mid) && (mid <? n) then Some mid else None
  else
    let remainder :=
      Z.rem (Z.rem (Double.round (current - 106)) 108 + 108) 108 + 106 in
    if (106 <=? remainder) && (remainder <=? 110) then
      let glowOffset := remainder - 108 in
      let idx := mid + glowOffset in
      if (0 <=? idx) && (idx <? n) then Some idx else None
    else None.

(** [applyGlow(current)] on the children of the container. *)
Definition applyGlow (current : Z) (beads : list Bead) : list Bead :=
  let cleared := removeGlow <$> beads in
  match glowIndex (Z.of_nat (List.length beads)) current with
  | Some idx => alter addGlow (Z.to_nat idx) cleared
  | None => cleared
  end.

(** The bead recycling of [handleEnd]: the last child moves before the
    first, or the first child moves to the end. *)
Definition recycle (dir : Direction) (beads : list Bead) : list Bead :=
  match dir with
  | inc =>
      match last beads with
      | Some b => b :: removelast beads
      | None => beads
      end
  | dec =>
      match beads with
      | b :: rest => rest ++ [b]
      | [] => []
      end
  end.

(** The track: the children of the container, the two refs, the offset the
    container is translated by ([None] until a step sets it), and the
    [handleEnd] closures listening for [transitionend], oldest first, each
    with the [dir] and the [count] it closed over. *)
Record Track := {
  beads : list Bead;
  isAnimating : bool;
  offset : Z;
  translateX : option Z;
  listeners : list (Direction * Z)
}.


(** [step(dir)] in a render whose tally is [count]. *)
Definition step (dir : Direction) (count : Z) (t : Track) : Track :=
  if isAnimating t then t
  else
    let delta := match dir with inc => beadGap | dec => - beadGap end in
    let nextOffset := offset t + delta in
    {| beads := beads t; isAnimating := true; offset := offset t;
       translateX := Some nextOffset;
       listeners := listeners t ++ [(dir, count)] |}.

(** [handleEnd] of the step that closed over [dir] and [count]; it is the
    oldest listener still registered when it runs, and removes itself. *)
Definition handleEnd (dir : Direction) (count : Z) (t : Track) : Track :=
  {| beads := applyGlow count (recycle dir (beads t));
     isAnimating := false; offset := 0; translateX := Some 0;
     listeners := tail (listeners t) |}.

(** A [transitionend] event on the container: the listeners registered
    when it is dispatched run in the order they were added. *)
Definition transitionEnd (t : Track) : Track :=
  fold_left (λ t l, handleEnd l.1 l.2 t) (listeners t) t.

(** What happens to a mounted track: the effect with the dependencies
    [count] and [direction] runs, or a transition ends. *)
Inductive Event :=
| Render (dir : Direction) (count : Z)
| TransitionEnd.

Definition handle (t : Track) (e : Event) : Track :=
  match e with
  | Render dir count => step dir count t
  | TransitionEnd => transitionEnd t
  end.

Definition run (es : list Event) (t : Track) : Track := fold_left handle es t.


Definition sameDirection (a b : Direction) : bool :=
  match a, b with
  | inc, inc | dec, dec => true
  | _, _ => false
  end.

(** The effect with the dependencies [count] and [direction] runs after a
    render in which one of them differs from the render before. *)
Definition rendered (prev cur : App) : list Event :=
  if (count prev =? count cur) && sameDirection (direction prev) (direction cur)
  then []
  else [Render (direction cur) (count cur)].


End Beads.

(* ===================================================================== *)
(** * Part II: properties                                                 *)
(* ===================================================================== *)

(** ** The counter core *)

Section DoubleFacts.
Import Double.

Lemma spacing_pos x : 0 < spacing x.
Proof.
  unfold spacing. destruct (Z.ltb_spec (Z.abs x) (2 ^ 53)); [lia|].
  apply Z.pow_pos_nonneg; [lia|].
  assert (53 ≤ Z.log2 (Z.abs x)); [|lia].
  change 53 with (Z.log2 (2 ^ 53)). by apply Z.log2_le_mono.
Qed.

Lemma round_exact x : Z.abs x ≤ 2 ^ 53 → round x = x.
Proof.
  intros Hx. destruct (Z.ltb_spec (Z.abs x) (2 ^ 53)) as [Hlt|Hge].
  - unfold round, spacing. rewrite (proj2 (Z.ltb_lt _ _) Hlt).
    rewrite Z.div_1_r, Z.mod_1_r. change (2 * 0 <? 1) with true.
    cbv iota zeta. lia.
  - assert (x = 2 ^ 53 ∨ x = - 2 ^ 53) as [->| ->] by lia; reflexivity.
Qed.

Lemma round_nonneg x : 0 ≤ x → 0 ≤ round x.
Proof.
  intros Hx. unfold round. pose proof (spacing_pos x) as Hu.
  set (u := spacing x) in *. clearbody u.
  pose proof (Z.div_pos x u Hx Hu).
  repeat case_match; nia.
Qed.


End DoubleFacts.

Section CounterCore.
Import Core.

Lemma count_doVibrate s : count (doVibrate s) = count s.
Proof. unfold doVibrate. by repeat case_match. Qed.

Lemma count_increment step s :
  count (increment step s) = Z.max 0 (Double.round (count s + step)).
Proof. unfold increment. by rewrite count_doVibrate. Qed.

Lemma count_decrement step s :
  count (decrement step s) = Z.max 0 (Double.round (count s - step)).
Proof.
  unfold decrement. cbn zeta. case_match; [by rewrite count_doVibrate | done].
Qed.

Lemma count_increment_exact step s :
  Z.abs (count s + step) ≤ 2 ^ 53 →
  count (increment step s) = Z.max 0 (count s + step).
Proof. intros H. by rewrite count_increment, round_exact. Qed.












End CounterCore.

(** ** Calendar dates and their keys *)

Section CalendarFacts.
Import Calendar.

Lemma daysInMonth_bounds y m : 28 ≤ daysInMonth y m ≤ 31.
Proof. unfold daysInMonth. repeat case_match; lia. Qed.

Lemma daysInMonth_december y : daysInMonth y 11 = 31.
Proof. reflexivity. Qed.

Lemma previousDay_valid d : validDate d → validDate (previousDay d).
Proof.
  unfold validDate, previousDay. intros [Hm Hd].
  destruct (Z.ltb_spec 1 (getDate d)); [simpl; lia|].
  destruct (Z.ltb_spec 0 (getMonth d)); simpl.
  - pose proof (daysInMonth_bounds (getFullYear d) (getMonth d - 1)). lia.
  - rewrite daysInMonth_december. lia.
Qed.

Lemma previousDay_rank d : validDate d → rank (previousDay d) < rank d.
Proof.
  unfold validDate, previousDay, rank. intros [Hm Hd].
  destruct (Z.ltb_spec 1 (getDate d)); [simpl; lia|].
  destruct (Z.ltb_spec 0 (getMonth d)); simpl.
  - pose proof (daysInMonth_bounds (getFullYear d) (getMonth d - 1)). lia.
  - lia.
Qed.

Lemma daysBefore_succ n d : daysBefore (S n) d = previousDay (daysBefore n d).
Proof. reflexivity. Qed.


Lemma daysBefore_valid n d : validDate d → validDate (daysBefore n d).
Proof.
  intros Hd. induction n as [|n IH]; [done|].
  rewrite daysBefore_succ. by apply previousDay_valid.
Qed.

Lemma daysBefore_rank d i j :
  validDate d → (i < j)%nat → rank (daysBefore j d) < rank (daysBefore i d).
Proof.
  intros Hd Hij. induction Hij as [|j Hij IH].
  - rewrite daysBefore_succ. by apply previousDay_rank, daysBefore_valid.
  - rewrite daysBefore_succ.
    pose proof (previousDay_rank (daysBefore j d) (daysBefore_valid j d Hd)). lia.
Qed.

Lemma string_length_app s t :
  String.length (s +:+ t) = (String.length s + String.length t)%nat.
Proof. induction s as [|c s IH]; simpl; [done | by rewrite IH]. Qed.

(** Two concatenations with tails of one length agree piecewise. *)
Lemma string_app_inj_tail s1 : ∀ s2 t1 t2,
  s1 +:+ t1 = s2 +:+ t2 → String.length t1 = String.length t2 →
  s1 = s2 ∧ t1 = t2.
Proof.
  induction s1 as [|c s1 IH]; intros [|c' s2] t1 t2 Heq Hlen.
  - done.
  - change (t1 = String c' (s2 +:+ t2)) in Heq.
    rewrite Heq in Hlen. simpl in Hlen. rewrite string_length_app in Hlen. lia.
  - change (String c (s1 +:+ t1) = t2) in Heq.
    rewrite <- Heq in Hlen. simpl in Hlen. rewrite string_length_app in Hlen. lia.
  - change (String c (s1 +:+ t1) = String c' (s2 +:+ t2)) in Heq.
    injection Heq as -> Heq. destruct (IH _ _ _ Heq Hlen) as [-> ->]. done.
Qed.

Lemma twoDigitField_table :
  forallb (λ k : nat,
             bool_decide (twoDigits (twoDigitField (Z.of_nat k)) = Some (Z.of_nat k)))
          (seq 0 100) = true.
Proof. vm_compute. reflexivity. Qed.

Lemma twoDigits_field n : 0 ≤ n < 100 → twoDigits (twoDigitField n) = Some n.
Proof.
  intros Hn. pose proof twoDigitField_table as Htab.
  rewrite List.forallb_forall in Htab.
  specialize (Htab (Z.to_nat n)). rewrite Z2Nat.id in Htab by lia.
  eapply bool_decide_eq_true_1, Htab. apply in_seq. lia.
Qed.

Lemma twoDigits_length s z : twoDigits s = Some z → String.length s = 2%nat.
Proof. destruct s as [|a [|b [|c s]]]; simpl; congruence. Qed.


Lemma todayKeyForDate_inj a b :
  validDate a → validDate b → todayKeyForDate a = todayKeyForDate b → a = b.
Proof.
  intros [Hma Hda] [Hmb Hdb].
  pose proof (daysInMonth_bounds (getFullYear a) (getMonth a)).
  pose proof (daysInMonth_bounds (getFullYear b) (getMonth b)).
  unfold todayKeyForDate. cbn zeta.
  fold (twoDigitField (getMonth a + 1)) (twoDigitField (getDate a))
       (twoDigitField (getMonth b + 1)) (twoDigitField (getDate b)).
  assert (Hfa := twoDigits_field (getMonth a + 1) ltac:(lia)).
  assert (Hfb := twoDigits_field (getMonth b + 1) ltac:(lia)).
  assert (Hga := twoDigits_field (getDate a) ltac:(lia)).
  assert (Hgb := twoDigits_field (getDate b) ltac:(lia)).
  pose proof (twoDigits_length _ _ Hfa). pose proof (twoDigits_length _ _ Hfb).
  pose proof (twoDigits_length _ _ Hga). pose proof (twoDigits_length _ _ Hgb).
  intros Hkey.
  apply string_app_inj_tail in Hkey as [Hy Htail];
    [|rewrite !string_length_app; simpl; lia].
  apply (inj pretty) in Hy.
  apply (inj (String.app "-")) in Htail.
  apply string_app_inj_tail in Htail as [Hm Hd];
    [|rewrite !string_length_app; simpl; lia].
  apply (inj (String.app "-")) in Hd.
  rewrite Hm in Hfa. rewrite Hd in Hga.
  assert (getMonth a = getMonth b) by (simplify_eq; lia).
  assert (getDate a = getDate b) by congruence.
  destruct a, b; simpl in *; congruence.
Qed.

Lemma daysBefore_key_inj d i j :
  validDate d →
  todayKeyForDate (daysBefore i d) = todayKeyForDate (daysBefore j d) → i = j.
Proof.
  intros Hd Hkey.
  apply todayKeyForDate_inj in Hkey; [|by apply daysBefore_valid..].
  destruct (Nat.lt_trichotomy i j) as [Hlt|[->|Hlt]]; [|done|];
    pose proof (daysBefore_rank d _ _ Hd Hlt) as Hr; rewrite Hkey in Hr; lia.
Qed.

End CalendarFacts.

(** ** The streak calculator *)

Section StreakFacts.
Import Calendar Streak.

Lemma positiveTotal_spec h k :
  positiveTotal h k = true ↔ ∃ r, entries h !! k = Some r ∧ 0 < total r.
Proof.
  unfold positiveTotal. destruct (entries h !! k) as [r|]; split.
  - intros H%Z.ltb_lt. eauto.
  - intros (r' & [= <-] & H). by apply Z.ltb_lt.
  - done.
  - intros (r & [=] & _).
Qed.

Lemma elem_of_sortedKeys h k : k ∈ sortedKeys h ↔ is_Some (entries h !! k).
Proof.
  unfold sortedKeys. rewrite merge_sort_Permutation, elem_of_elements.
  apply elem_of_dom.
Qed.

Lemma elem_of_streakSet h k :
  k ∈ streakSet h ↔ ∃ r, entries h !! k = Some r ∧ 0 < total r.
Proof.
  unfold streakSet.
  rewrite elem_of_list_to_set, list_elem_of_In, filter_In, <- list_elem_of_In.
  rewrite elem_of_sortedKeys, positiveTotal_spec. split.
  - by intros [_ H].
  - intros (r & Hr & Hpos). split; eauto.
Qed.

Lemma elem_of_qualifyingKeys h k :
  k ∈ qualifyingKeys h ↔ ∃ r, entries h !! k = Some r ∧ 0 < total r.
Proof.
  unfold qualifyingKeys. rewrite elem_of_dom. unfold is_Some.
  setoid_rewrite map_lookup_filter_Some. simpl. done.
Qed.

Lemma streakSet_qualifyingKeys h : streakSet h = qualifyingKeys h.
Proof.
  apply set_eq. intros k. by rewrite elem_of_streakSet, elem_of_qualifyingKeys.
Qed.





End StreakFacts.

(** ** The walk on [Date] objects, in a zone *)

Section ClockFacts.
Import Calendar Clock Streak.





Lemma keepsDay_lands zone d i : keepsDay zone → lands zone d i.
Proof. intros Hz. unfold lands. by rewrite Hz. Qed.

Lemma keepsDay_utc : keepsDay Samples.utc.
Proof. done. Qed.



Lemma calcStreak_walk zone fuel h now :
  calcStreak zone (S fuel) h now
  = walk zone (S fuel) (streakSet h) (cursorStart zone h now) 0.
Proof.
  unfold calcStreak. cbn zeta. fold (streakSet h).
  destruct (Nat.eqb_spec (List.length (sortedKeys h)) 0) as [Hlen|_].
  - assert (Hempty : streakSet h = ∅).
    { unfold streakSet. destruct (sortedKeys h); [done | discriminate]. }
    rewrite Hempty. cbn [walk]. by rewrite bool_decide_eq_false_2 by set_solver.
  - unfold cursorStart. by destruct (bool_decide _).
Qed.


End ClockFacts.

Section StreakClaims.
Import Calendar Clock Streak.

Lemma dayKey_inj now i j : validDate now → dayKey i now = dayKey j now → i = j.
Proof. apply daysBefore_key_inj. Qed.








Lemma valid_march1 : validDate Samples.march1.
Proof. unfold validDate. change (daysInMonth _ _) with 31. simpl. lia. Qed.








End StreakClaims.

(** ** The ledger: upsert, day rollover, clear today, and re-rendering *)

Section LedgerFacts.
Import Core.

Lemma upsert_same key cnt fresh h r :
  entries h !! key = Some r → total r = cnt → upsert key cnt fresh h = h.
Proof. intros Hr Ht. unfold upsert. rewrite Hr, Ht, Z.eqb_refl. done. Qed.

Lemma upsert_changed key cnt fresh h :
  0 ≤ cnt →
  (∀ r, entries h !! key = Some r → total r ≠ cnt) →
  upsert key cnt fresh h = spreadWith fresh h key {| date := key; total := cnt |}.
Proof.
  intros Hc Hr. unfold upsert.
  destruct (entries h !! key) as [r|] eqn:E.
  - specialize (Hr r eq_refl). by rewrite (proj2 (Z.eqb_neq _ _) Hr).
  - by rewrite (proj2 (Z.eqb_neq (-1) cnt)) by lia.
Qed.

Lemma upsert_lookup key cnt fresh h :
  0 ≤ cnt →
  entries (upsert key cnt fresh h) !! key = Some {| date := key; total := cnt |} ∨
  (∃ d, entries (upsert key cnt fresh h) !! key = Some {| date := d; total := cnt |}
        ∧ upsert key cnt fresh h = h).
Proof.
  intros Hc. unfold upsert.
  destruct (entries h !! key) as [[d t]|] eqn:E; cbn [total].
  - destruct (Z.eqb_spec t cnt) as [->|_].
    + right. eauto.
    + left. simpl. apply lookup_insert_eq.
  - rewrite (proj2 (Z.eqb_neq (-1) cnt)) by lia. left. simpl. apply lookup_insert_eq.
Qed.

Lemma upsert_addr key cnt fresh h :
  upsert key cnt fresh h = h ∨ addr (upsert key cnt fresh h) = fresh.
Proof. unfold upsert. case_match; [by left | by right]. Qed.

Lemma upsert_other key cnt fresh h k :
  k ≠ key → entries (upsert key cnt fresh h) !! k = entries h !! k.
Proof.
  intros Hk. unfold upsert. case_match; [done|]. simpl.
  by rewrite lookup_insert_ne.
Qed.

Lemma upsert_total key cnt fresh h :
  0 ≤ cnt → total <$> entries (upsert key cnt fresh h) !! key = Some cnt.
Proof.
  intros Hc.
  destruct (upsert_lookup key cnt fresh h Hc) as [->|(d & -> & _)]; done.
Qed.

Lemma wellFormed_countEffect key cnt s :
  wellFormed s → wellFormed (countEffect key cnt s).
Proof.
  unfold wellFormed, countEffect. intros Hwf. case_match; [done|]. simpl.
  destruct (upsert_addr key cnt (heapNext s) (history s)) as [->| ->]; lia.
Qed.

Lemma wellFormed_checkDayChange key seen s :
  wellFormed s → wellFormed (checkDayChange key seen s).
Proof.
  unfold wellFormed, checkDayChange. intros Hwf. case_match; [done|]. simpl. lia.
Qed.

Lemma wellFormed_clearToday key s : wellFormed s → wellFormed (clearToday key s).
Proof.
  unfold wellFormed, clearToday. intros Hwf. case_match; [|done]. simpl. lia.
Qed.

Lemma is_Some_of_total (o : option DayLog) t : total <$> o = Some t → is_Some o.
Proof. destruct o; [by eauto | done]. Qed.

Lemma countEffect_round key cnt s :
  wellFormed s →
  let s1 := countEffect key cnt s in
  wellFormed s1 ∧ count s1 = count s ∧
  (history s1 = history s ∨
   ((addr (history s) < addr (history s1))%nat ∧
    total <$> entries (history s1) !! key = Some cnt)).
Proof.
  intros Hwf. cbn zeta. split; [by apply wellFormed_countEffect|].
  unfold countEffect. destruct (Z.ltb_spec cnt 0) as [|Hc]; [by auto|].
  cbn [count history setHistory]. split; [done|].
  destruct (upsert_addr key cnt (heapNext s) (history s)) as [->|Ha]; [by left|].
  right. rewrite Ha. split; [exact Hwf | by apply upsert_total].
Qed.

Lemma checkDayChange_round key seen s :
  wellFormed s →
  let s1 := checkDayChange key seen s in
  wellFormed s1 ∧
  ((count s1 = count s ∧ history s1 = history s) ∨
   (count s1 = 0 ∧ (addr (history s) < addr (history s1))%nat ∧
    total <$> entries (history s1) !! key = Some 0)).
Proof.
  intros Hwf. cbn zeta. split; [by apply wellFormed_checkDayChange|].
  unfold checkDayChange. destruct (entries seen !! key); [by left|].
  right. cbn. rewrite lookup_insert_eq. done.
Qed.

(** A commit changes the tally only by the rollover reset, and the ledger
    only by writing today's record. *)
Lemma runEffects_round key dc dh s :
  wellFormed s →
  let s1 := runEffects key dc dh false s in
  wellFormed s1 ∧
  (count s1 = count s ∨
   (count s1 = 0 ∧ total <$> entries (history s1) !! key = Some 0)) ∧
  (history s1 = history s ∨
   ((addr (history s) < addr (history s1))%nat ∧
    is_Some (entries (history s1) !! key))).
Proof.
  intros Hwf. unfold runEffects. cbn zeta.
  set (sa := if dc then emit (SaveCount (count s)) s else s).
  set (sb := if dh then emit (SaveHistory (history s)) sa else sa).
  assert (Hb : wellFormed sb ∧ count sb = count s ∧ history sb = history s)
    by (unfold sb, sa; destruct dc, dh; done).
  clearbody sb. clear sa. destruct Hb as (Hwb & Hcb & Hhb).
  set (sc := if dc then countEffect key (count s) sb else sb).
  assert (Hc : wellFormed sc ∧ count sc = count s ∧
               (history sc = history s ∨
                ((addr (history s) < addr (history sc))%nat ∧
                 is_Some (entries (history sc) !! key)))).
  { unfold sc. destruct dc; [|by auto].
    destruct (countEffect_round key (count s) sb Hwb) as (? & ? & [?|[? Ht]]).
    - split; [done|]. split; [congruence|]. left. congruence.
    - split; [done|]. split; [congruence|]. right. rewrite <- Hhb.
      split; [done|]. by apply (is_Some_of_total _ _ Ht). }
  clearbody sc. destruct Hc as (Hwc & Hcc & Hhc).
  destruct dh; [|by auto].
  destruct (checkDayChange_round key (history s) sc Hwc)
    as (? & [[Hc1 Hh1]|(Hc1 & Ha1 & Ht1)]).
  - split; [done|]. rewrite Hc1, Hh1. auto.
  - split; [done|]. split; [by auto|]. right.
    split; [|by apply (is_Some_of_total _ _ Ht1)].
    destruct Hhc as [Hhc|[Hhc _]]; [rewrite Hhc in Ha1|]; lia.
Qed.

(** A commit that finds today's record in place, with the tally in it,
    changes nothing but the log and the allocator. *)
Lemma runEffects_quiet key dc dh s :
  (dc = true → count s < 0 ∨ total <$> entries (history s) !! key = Some (count s)) →
  (dh = true → is_Some (entries (history s) !! key)) →
  count (runEffects key dc dh false s) = count s ∧
  history (runEffects key dc dh false s) = history s.
Proof.
  intros Hc Hh. unfold runEffects. cbn zeta.
  set (sa := if dc then emit (SaveCount (count s)) s else s).
  set (sb := if dh then emit (SaveHistory (history s)) sa else sa).
  assert (Hb : count sb = count s ∧ history sb = history s)
    by (unfold sb, sa; destruct dc, dh; done).
  clearbody sb. clear sa. destruct Hb as (Hcb & Hhb).
  set (sc := if dc then countEffect key (count s) sb else sb).
  assert (Hsc : count sc = count s ∧ history sc = history s).
  { unfold sc. destruct dc; [|done]. unfold countEffect.
    destruct (Z.ltb_spec (count s) 0); [done|].
    cbn [count history setHistory]. split; [done|].
    destruct (Hc eq_refl) as [?|Ht]; [lia|]. rewrite Hhb.
    destruct (entries (history s) !! key) as [r|] eqn:E; [|done].
    injection Ht as Ht. by apply (upsert_same _ _ _ _ r). }
  clearbody sc. destruct Hsc as (Hcc & Hhc).
  destruct dh; [|done].
  unfold checkDayChange. destruct (Hh eq_refl) as [r ->]. done.
Qed.

(** Two commits after any change the component is at rest, with the tally
    and the ledger the first commit left. *)
Lemma settle_two key prev cur :
  wellFormed cur →
  let dc := countChanged prev cur in
  let dh := historyChanged prev cur in
  let s1 := if negb (dc || dh) then cur else runEffects key dc dh false cur in
  ∃ s', settle 2 key prev cur = Some s' ∧
        count s' = count s1 ∧ history s' = history s1.
Proof.
  intros Hwf. cbn zeta. cbn [settle].
  destruct (negb (countChanged prev cur || historyChanged prev cur)); [by eauto|].
  set (dc := countChanged prev cur). set (dh := historyChanged prev cur).
  destruct (runEffects_round key dc dh cur Hwf) as (Hw1 & Hc1 & Hh1).
  set (s1 := runEffects key dc dh false cur) in *. clearbody s1.
  destruct (negb (countChanged cur s1 || historyChanged cur s1)) eqn:E1;
    [by eauto|].
  destruct (runEffects_quiet key (countChanged cur s1) (historyChanged cur s1) s1)
    as (Hc2 & Hh2).
  - unfold countChanged. intros Hne%negb_true_iff%Z.eqb_neq.
    destruct Hc1 as [?|[-> ->]]; [congruence | by right].
  - unfold historyChanged. intros Hne%negb_true_iff%Nat.eqb_neq.
    destruct Hh1 as [Heq|[_ ?]]; [by rewrite Heq in Hne | done].
  - set (s2 := runEffects key _ _ false s1) in *.
    exists s2. unfold countChanged, historyChanged.
    rewrite Hc2, Hh2, Z.eqb_refl, Nat.eqb_refl. done.
Qed.

End LedgerFacts.

Section LedgerClaims.
Import Core.

Lemma settle_at_rest fuel key s s' :
  count s' = count s → history s' = history s → settle fuel key s s' = Some s'.
Proof.
  intros Hc Hh.
  assert (Hflags : negb (countChanged s s' || historyChanged s s') = true).
  { unfold countChanged, historyChanged.
    by rewrite Hc, Hh, Z.eqb_refl, Nat.eqb_refl. }
  destruct fuel; simpl; by rewrite Hflags.
Qed.

Lemma settle_after_quiet key s s' :
  wellFormed s' →
  total <$> entries (history s') !! key = Some (count s') →
  ∃ s'', settle 2 key s s' = Some s'' ∧
         count s'' = count s' ∧ history s'' = history s'.
Proof.
  intros Hwf Ht.
  destruct (settle_two key s s' Hwf) as (s'' & Hs & Hc & Hh).
  exists s''. split; [done|].
  destruct (negb (countChanged s s' || historyChanged s s')); [done|].
  destruct (runEffects_quiet key (countChanged s s') (historyChanged s s') s')
    as [Hc' Hh'].
  - auto.
  - intros _. by apply (is_Some_of_total _ _ Ht).
  - by rewrite Hc, Hh.
Qed.

(** C5. When the ledger has no record for today the day-rollover check
    sets the tally to 0 and inserts [{date: today, total: 0}], and the
    renders that follow leave both as they are; when a record for today
    exists the check changes nothing. *)
Theorem checkDayChange_rollover (key : string) (s : App) :
  (entries (history s) !! key = None →
   let s' := checkDayChange key (history s) s in
   count s' = 0 ∧
   entries (history s') =
     <[key := {| date := key; total := 0 |}]> (entries (history s)) ∧
   (wellFormed s →
    ∃ s'', settle 2 key s s' = Some s'' ∧
           count s'' = 0 ∧ history s'' = history s')) ∧
  (is_Some (entries (history s) !! key) →
   checkDayChange key (history s) s = s).
Proof.
  split.
  - intros Hnone. cbn zeta. unfold checkDayChange. rewrite Hnone.
    split; [done|]. split; [done|]. intros Hwf.
    apply (settle_after_quiet key s); [unfold wellFormed; simpl; lia|].
    simpl. by rewrite lookup_insert_eq.
  - intros [r Hr]. unfold checkDayChange. by rewrite Hr.
Qed.

Lemma checkDayChange_rollover_witness :
  let key := "2024-03-01" in
  let s := Samples.app 7 (Samples.ledger 0 [("2024-02-29", 7)]) in
  let t := Samples.app 7 (Samples.ledger 0 [("2024-03-01", 7)]) in
  entries (history s) !! key = None ∧
  count (checkDayChange key (history s) s) = 0 ∧
  is_Some (entries (history t) !! key) ∧
  checkDayChange key (history t) t = t.
Proof.
  intros key s t.
  assert (Hs : entries (history s) !! key = None) by (vm_compute; reflexivity).
  assert (Ht : is_Some (entries (history t) !! key))
    by (exists {| date := key; total := 7 |}; vm_compute; reflexivity).
  split; [exact Hs|]. split; [|split; [exact Ht|]].
  - destruct (checkDayChange_rollover key s) as [Hroll _].
    exact (proj1 (Hroll Hs)).
  - destruct (checkDayChange_rollover key t) as [_ Hkeep].
    exact (Hkeep Ht).
Defined.

Lemma upsert_twice key cnt fresh fresh' h :
  upsert key cnt fresh' (upsert key cnt fresh h) = upsert key cnt fresh h.
Proof.
  assert (Hcases : ∃ b : bool, ∀ a,
    upsert key cnt a h =
      if b then h else spreadWith a h key {| date := key; total := cnt |})
    by (eexists; intros a; unfold upsert; reflexivity).
  destruct Hcases as [[|] Hb].
  - by rewrite !Hb.
  - rewrite (Hb fresh).
    apply (upsert_same _ _ _ _ {| date := key; total := cnt |}); [|done].
    apply lookup_insert_eq.
Qed.

(** C6. For every ledger, date and total: when the date's record already
    has that total the upsert returns the very same ledger object, so the
    component neither re-renders nor writes; otherwise, the total being a
    tally value (0 or more, the only ones the effect upserts), the result
    is a new object in which the date's record is [{date, total}], and the
    component renders again.  In both cases every other date's record is
    as before, and upserting twice is upserting once. *)
Theorem upsert_idempotent (key : string) (cnt : Z) (fresh : nat) (h : History) :
  (∀ r, entries h !! key = Some r → total r = cnt →
     upsert key cnt fresh h = h ∧
     ∀ s, history s = h → count s = cnt →
          history (countEffect key cnt s) = h ∧
          log (countEffect key cnt s) = log s ∧
          settle 0 key s (countEffect key cnt s) = Some (countEffect key cnt s)) ∧
  (0 ≤ cnt → (∀ r, entries h !! key = Some r → total r ≠ cnt) →
     addr (upsert key cnt fresh h) = fresh ∧
     entries (upsert key cnt fresh h) =
       <[key := {| date := key; total := cnt |}]> (entries h) ∧
     ∀ s, history s = h → wellFormed s →
          historyChanged s (countEffect key cnt s) = true) ∧
  (∀ k, k ≠ key → entries (upsert key cnt fresh h) !! k = entries h !! k) ∧
  (∀ fresh', upsert key cnt fresh' (upsert key cnt fresh h) = upsert key cnt fresh h).
Proof.
  split; [|split; [|split]].
  - intros r Hr Ht. split; [by apply (upsert_same _ _ _ _ r)|].
    intros s Hs Hcnt. unfold countEffect.
    destruct (Z.ltb_spec cnt 0) as [|Hc].
    { split; [done|]. split; [done|]. by apply settle_at_rest. }
    cbn [history log setHistory]. rewrite Hs, (upsert_same _ _ _ _ r) by done.
    split; [done|]. split; [done|].
    apply settle_at_rest; [done|].
    cbn [history setHistory]. by rewrite Hs, (upsert_same _ _ _ _ r).
  - intros Hc Hr. rewrite !upsert_changed by done. split; [done|]. split; [done|].
    intros s Hs Hwf. unfold historyChanged, countEffect.
    rewrite (proj2 (Z.ltb_ge cnt 0)) by done. cbn [history setHistory].
    rewrite Hs, upsert_changed by done. cbn.
    apply negb_true_iff, Nat.eqb_neq. unfold wellFormed in Hwf.
    rewrite Hs in Hwf. lia.
  - intros k Hk. by apply upsert_other.
  - intros fresh'. apply upsert_twice.
Qed.

Lemma upsert_idempotent_witness :
  let key := "2024-03-01" in
  let h := Samples.ledger 0 [("2024-03-01", 7); ("2024-02-29", 3)] in
  let s7 := Samples.app 7 h in
  let s8 := Samples.app 8 h in
  0 ≤ 8 ∧ wellFormed s8 ∧
  upsert key 7 1 h = h ∧
  log (countEffect key 7 s7) = log s7 ∧
  settle 0 key s7 (countEffect key 7 s7) = Some (countEffect key 7 s7) ∧
  addr (upsert key 8 1 h) = 1%nat ∧
  historyChanged s8 (countEffect key 8 s8) = true ∧
  entries (upsert key 8 1 h) !! "2024-02-29" = entries h !! "2024-02-29".
Proof.
  intros key h s7 s8.
  assert (H8 : 0 ≤ 8) by lia.
  assert (Hwf : wellFormed s8) by (unfold wellFormed; simpl; lia).
  split; [exact H8|]. split; [exact Hwf|].
  destruct (upsert_idempotent key 7 1 h) as (Hsame & _).
  destruct (upsert_idempotent key 8 1 h) as (_ & Hnew & Hother & _).
  destruct (Hsame {| date := key; total := 7 |}) as [Hobj Heffect];
    [vm_compute; reflexivity | reflexivity |].
  destruct (Heffect s7 eq_refl eq_refl) as (_ & Hlog & Hrest).
  destruct Hnew as (Haddr & _ & Hrender);
    [exact H8 | intros r Hr; vm_compute in Hr; injection Hr as <-; simpl; lia |].
  split; [exact Hobj|]. split; [exact Hlog|]. split; [exact Hrest|].
  split; [exact Haddr|]. split; [exact (Hrender s8 eq_refl Hwf)|].
  apply Hother. vm_compute. congruence.
Defined.

(** C9, as the code has it.  The update [clearToday] itself removes
    today's record only: every other date's record and the tally are as
    before.  It makes the ledger a new object, so the day-rollover effect
    runs again, finds no record for today, sets the tally to 0 and writes
    [{date: today, total: 0}]: once the component is at rest today's
    record is there with total 0, the other dates are as before, and the
    tally is 0.  Without a record for today [clearToday] does nothing. *)
Theorem clearToday_then_rollover (key : string) (s : App) :
  (count (clearToday key s) = count s ∧
   entries (history (clearToday key s)) !! key = None ∧
   ∀ k, k ≠ key →
        entries (history (clearToday key s)) !! k = entries (history s) !! k) ∧
  (wellFormed s → is_Some (entries (history s) !! key) →
   ∃ s', dispatch 2 key (clearToday key) s = Some s' ∧
         count s' = 0 ∧
         entries (history s') !! key = Some {| date := key; total := 0 |} ∧
         ∀ k, k ≠ key → entries (history s') !! k = entries (history s) !! k) ∧
  (entries (history s) !! key = None →
   ∀ fuel, dispatch fuel key (clearToday key) s = Some s).
Proof.
  split; [|split].
  - unfold clearToday. destruct (entries (history s) !! key) eqn:E.
    + cbn. split; [done|]. split; [apply lookup_delete_eq|].
      intros k Hk. by apply lookup_delete_ne.
    + by auto.
  - intros Hwf [r Hr]. unfold dispatch.
    pose proof (wellFormed_clearToday key s Hwf) as Hwf'.
    destruct (settle_two key s (clearToday key s) Hwf') as (s' & Hs & Hc & Hh).
    exists s'. split; [done|]. rewrite Hc, Hh. clear Hs Hc Hh s'.
    assert (Hflags : countChanged s (clearToday key s) = false ∧
                     historyChanged s (clearToday key s) = true).
    { unfold countChanged, historyChanged, clearToday. rewrite Hr. cbn.
      rewrite Z.eqb_refl. split; [done|].
      apply negb_true_iff, Nat.eqb_neq. unfold wellFormed in Hwf. lia. }
    destruct Hflags as [-> ->]. cbn [orb negb].
    unfold runEffects, checkDayChange, clearToday. rewrite Hr. cbn.
    rewrite lookup_delete_eq. cbn.
    split; [done|]. split; [apply lookup_insert_eq|].
    intros k Hk. by rewrite lookup_insert_ne, lookup_delete_ne.
  - intros Hnone fuel. unfold dispatch, clearToday. rewrite Hnone.
    by apply settle_at_rest.
Qed.

Lemma clearToday_then_rollover_witness :
  let key := "2024-03-01" in
  let s := Samples.app 5 (Samples.ledger 0 [("2024-03-01", 5); ("2024-02-29", 3)]) in
  let t := Samples.app 5 (Samples.ledger 0 [("2024-02-29", 3)]) in
  wellFormed s ∧ is_Some (entries (history s) !! key) ∧
  (∃ s', dispatch 2 key (clearToday key) s = Some s' ∧ count s' = 0) ∧
  entries (history t) !! key = None ∧
  dispatch 2 key (clearToday key) t = Some t.
Proof.
  intros key s t.
  assert (Hwf : wellFormed s) by (unfold wellFormed; simpl; lia).
  assert (Hr : is_Some (entries (history s) !! key))
    by (exists {| date := key; total := 5 |}; vm_compute; reflexivity).
  assert (Hnone : entries (history t) !! key = None) by (vm_compute; reflexivity).
  split; [exact Hwf|]. split; [exact Hr|].
  destruct (clearToday_then_rollover key s) as (_ & Hsettled & _).
  destruct (clearToday_then_rollover key t) as (_ & _ & Hnothing).
  destruct (Hsettled Hwf Hr) as (s' & Hs' & Hc & _).
  split; [exists s'; split; [exact Hs' | exact Hc]|].
  split; [exact Hnone | exact (Hnothing Hnone 2%nat)].
Defined.

(** C9 as the specification words it fails: with a tally of 5 recorded for
    today, "clear today" ends with the tally at 0 and with a record for
    today in the ledger. *)
Lemma clearToday_resets_tally :
  let key := "2024-03-01" in
  let s := Samples.app 5 (Samples.ledger 0 [("2024-03-01", 5); ("2024-02-29", 3)]) in
  ∃ s', dispatch 2 key (clearToday key) s = Some s' ∧
        count s = 5 ∧ count s' = 0 ∧
        entries (history s') !! key = Some {| date := key; total := 0 |} ∧
        ¬ (entries (history s') !! key = None ∧ count s' = count s).
Proof.
  intros key s. eexists. split; [vm_compute; reflexivity|].
  split; [reflexivity|]. split; [reflexivity|].
  split; [vm_compute; reflexivity|].
  intros [_ H]. vm_compute in H. discriminate.
Qed.

End LedgerClaims.

(** ** The hold-to-repeat controller *)

Section HoldFacts.
Import Timers Hold.

Lemma world_eq (w : World) :
  w = {| now := now w; timers := timers w; nextHandle := nextHandle w;
         ref := ref w; ticks := ticks w |}.
Proof. by destruct w. Qed.

Lemma tick1_idle w : idle w → tick1 w = later w.
Proof.
  intros [Ht _]. unfold tick1, dueHandles. cbn. by rewrite Ht.
Qed.

Lemma later_idle w : idle w → idle (later w).
Proof. by intros [? ?]. Qed.

Lemma elapse_idle n : ∀ w,
  idle w →
  idle (elapse n w) ∧ ticks (elapse n w) = ticks w ∧
  now (elapse n w) = now w + Z.of_nat n ∧
  nextHandle (elapse n w) = nextHandle w.
Proof.
  induction n as [|n IH]; intros w Hw.
  - cbn. repeat split; try apply Hw. lia.
  - destruct (IH w Hw) as (Hi & Ht & Hn & Hh).
    change (elapse (S n) w) with (tick1 (elapse n w)).
    rewrite tick1_idle by done. cbn.
    split; [by apply later_idle|]. repeat split; try done. lia.
Qed.

Lemma tick1_armedShort w h d :
  armedShort h d w →
  tick1 w =
    if d <=? now w + 1 then
      {| now := now w + 1;
         timers := [{| handle := nextHandle w; due := now w + 1 + 150;
                       kind := Interval 150; callback := Tick |}];
         nextHandle := S (nextHandle w);
         ref := {| delay := Some h; repeat := Some (nextHandle w) |};
         ticks := ticks w |}
    else later w.
Proof.
  intros [Ht Hr]. unfold tick1, dueHandles. cbn. rewrite Ht. cbn.
  destruct (d <=? now w + 1); cbn; [|done].
  unfold fire. cbn. rewrite Ht. cbn. rewrite Nat.eqb_refl. cbn.
  rewrite Ht, Hr. cbn. by rewrite Nat.eqb_refl.
Qed.

Lemma tick1_armedRepeat w h0 h d :
  armedRepeat h0 h d w →
  tick1 w =
    if d <=? now w + 1 then
      {| now := now w + 1;
         timers := [{| handle := h; due := d + 150;
                       kind := Interval 150; callback := Tick |}];
         nextHandle := nextHandle w;
         ref := ref w;
         ticks := ticks w ++ [now w + 1] |}
    else later w.
Proof.
  intros [Ht Hr]. unfold tick1, dueHandles. cbn. rewrite Ht. cbn.
  destruct (d <=? now w + 1); cbn; [|done].
  unfold fire. cbn. rewrite Ht. cbn. rewrite Nat.eqb_refl. cbn.
  done.
Qed.

Lemma startHold_idle w :
  idle w →
  startHold w =
    {| now := now w;
       timers := [{| handle := nextHandle w; due := now w + 300;
                     kind := Timeout; callback := ArmRepeat |}];
       nextHandle := S (nextHandle w);
       ref := {| delay := Some (nextHandle w); repeat := None |};
       ticks := ticks w ++ [now w] |}.
Proof.
  intros [Ht Hr]. unfold startHold. cbn. by rewrite Ht, Hr.
Qed.

Lemma stopHold_armedShort w h d :
  armedShort h d w → idle (stopHold w) ∧ ticks (stopHold w) = ticks w ∧
                     now (stopHold w) = now w.
Proof.
  intros [Ht Hr]. unfold stopHold, clearBoth, idle. rewrite Hr. cbn.
  rewrite ?Ht. cbn. by rewrite ?Nat.eqb_refl.
Qed.

Lemma stopHold_armedRepeat w h0 h d :
  armedRepeat h0 h d w → idle (stopHold w) ∧ ticks (stopHold w) = ticks w ∧
                         now (stopHold w) = now w.
Proof.
  intros [Ht Hr]. unfold stopHold, clearBoth, idle. rewrite Hr. cbn.
  rewrite ?Ht. cbn. destruct (h =? h0)%nat; cbn; rewrite ?Nat.eqb_refl; done.
Qed.

Lemma stopHold_idle w : idle w → stopHold w = w.
Proof.
  intros [Ht Hr]. unfold stopHold, clearBoth. rewrite Hr. cbn. by rewrite Hr.
Qed.

Lemma fire_idle h w : idle w → fire h w = w.
Proof. intros [Ht _]. unfold fire. by rewrite Ht. Qed.

Lemma every_snoc n step : ∀ from,
  every (S n) step from = every n step from ++ [from + step * (Z.of_nat n + 1)].
Proof.
  induction n as [|n IH]; intros from.
  - cbn. do 2 f_equal. lia.
  - change (every (S (S n)) step from)
      with ((from + step) :: every (S n) step (from + step)).
    rewrite IH. cbn [every app]. do 3 f_equal. lia.
Qed.

Lemma world_ext (a b : World) :
  now a = now b → timers a = timers b → nextHandle a = nextHandle b →
  ref a = ref b → ticks a = ticks b → a = b.
Proof. destruct a, b; cbn; by intros -> -> -> -> ->. Qed.

(** The world [n] ms into a press that began in an idle world: before the
    delay fires, and [r] ms after the [k]-th repeat instant. *)
Lemma elapse_startHold n : ∀ w,
  idle w →
  ((n < 300)%nat →
   elapse n (startHold w) =
     {| now := now w + Z.of_nat n;
        timers := [{| handle := nextHandle w; due := now w + 300;
                      kind := Timeout; callback := ArmRepeat |}];
        nextHandle := S (nextHandle w);
        ref := {| delay := Some (nextHandle w); repeat := None |};
        ticks := ticks w ++ [now w] |}) ∧
  (∀ k r, n = (300 + 150 * k + r)%nat → (r < 150)%nat →
   elapse n (startHold w) =
     {| now := now w + Z.of_nat n;
        timers := [{| handle := S (nextHandle w);
                      due := now w + 300 + 150 * (Z.of_nat k + 1);
                      kind := Interval 150; callback := Tick |}];
        nextHandle := S (S (nextHandle w));
        ref := {| delay := Some (nextHandle w);
                  repeat := Some (S (nextHandle w)) |};
        ticks := ticks w ++ now w :: every k 150 (now w + 300) |}).
Proof.
  induction n as [|n IH]; intros w Hw.
  - split; [|intros; lia]. intros _. rewrite startHold_idle by done.
    cbn. f_equal. lia.
  - destruct (IH w Hw) as [IHshort IHrep].
    change (elapse (S n) (startHold w)) with (tick1 (elapse n (startHold w))).
    split.
    + intros Hn. rewrite IHshort by lia.
      erewrite tick1_armedShort by (split; reflexivity). cbn [now].
      rewrite (proj2 (Z.leb_gt _ _)) by lia.
      apply world_ext; cbn; try done. lia.
    + intros k r Hn Hr.
      destruct (decide (k = O ∧ r = O)) as [[-> ->]|Hkr].
      * rewrite IHshort by lia.
        erewrite tick1_armedShort by (split; reflexivity). cbn [now nextHandle ticks].
        rewrite (proj2 (Z.leb_le _ _)) by lia.
        apply world_ext; cbn; try done; [lia|]. do 2 f_equal. lia.
      * destruct r as [|r].
        -- destruct k as [|k]; [lia|].
           rewrite (IHrep k 149%nat) by lia.
           erewrite tick1_armedRepeat by (split; reflexivity).
           cbn [now nextHandle ticks ref].
           rewrite (proj2 (Z.leb_le _ _)) by lia.
           rewrite every_snoc.
           apply world_ext; cbn [now timers nextHandle ref ticks]; try done.
           ++ lia.
           ++ do 2 f_equal. lia.
           ++ rewrite <- app_assoc. cbn [app].
              replace (now w + Z.of_nat n + 1)
                with (now w + 300 + 150 * (Z.of_nat k + 1)) by lia.
              done.
        -- rewrite (IHrep k r) by lia.
           erewrite tick1_armedRepeat by (split; reflexivity).
           cbn [now nextHandle ticks ref].
           rewrite (proj2 (Z.leb_gt _ _)) by lia.
           apply world_ext; cbn; try done. lia.
Qed.

End HoldFacts.

Section HoldClaims.
Import Timers Hold.

Lemma elem_of_every n step : ∀ from x,
  x ∈ every n step from ↔
  ∃ j : Z, 1 ≤ j ≤ Z.of_nat n ∧ x = from + step * j.
Proof.
  induction n as [|n IH]; intros from x; cbn [every].
  - rewrite elem_of_nil. split; [done|]. intros (j & ? & _). lia.
  - rewrite elem_of_cons, IH. split.
    + intros [->|(j & Hj & ->)].
      * exists 1. split; lia.
      * exists (j + 1). split; lia.
    + intros (j & Hj & ->). destruct (decide (j = 1)) as [->|].
      * left. lia.
      * right. exists (j - 1). split; lia.
Qed.

(** The world when a press that began in an idle world has lasted [D] ms. *)
Lemma held_state w D :
  idle w →
  let held := elapse D (startHold w) in
  now held = now w + Z.of_nat D ∧
  ((D < 300)%nat →
   armedShort (nextHandle w) (now w + 300) held ∧
   ticks held = ticks w ++ [now w]) ∧
  ((300 ≤ D)%nat →
   armedRepeat (nextHandle w) (S (nextHandle w))
     (now w + 300 + 150 * (Z.of_nat ((D - 300) / 150) + 1)) held ∧
   ticks held = ticks w ++ now w :: every ((D - 300) / 150) 150 (now w + 300)).
Proof.
  intros Hw. cbn zeta.
  destruct (elapse_startHold D w Hw) as [Hshort Hrep].
  destruct (Nat.lt_ge_cases D 300) as [HD|HD].
  - rewrite Hshort by done. split; [done|]. split; [|lia]. by intros _.
  - pose proof (Nat.div_mod_eq (D - 300) 150) as Hdm.
    pose proof (Nat.mod_upper_bound (D - 300) 150 ltac:(lia)) as Hr.
    rewrite (Hrep ((D - 300) / 150)%nat ((D - 300) mod 150)%nat) by lia.
    split; [done|]. split; [lia|]. by intros _.
Qed.

(** C3. A press on an idle controller fires one tick at once.  Released
    before 300 ms have passed, that is the only tick.  Held for 300 ms or
    more, ticks follow at 450 ms, 600 ms, ... after the press, one every
    150 ms up to the release.  The release itself fires nothing and leaves
    no timer behind, so nothing fires later, and the firing of a timer
    that was cleared runs nothing. *)
Theorem hold_press_release (w : World) (D E : nat) :
  idle w →
  let held := elapse D (startHold w) in
  let released := stopHold held in
  ticks (startHold w) = ticks w ++ [now w] ∧
  ((D < 300)%nat → ticks released = ticks w ++ [now w]) ∧
  ((300 ≤ D)%nat →
   ticks released =
     ticks w ++ now w :: every ((D - 300) / 150) 150 (now w + 300) ∧
   ∀ t, t ∈ every ((D - 300) / 150) 150 (now w + 300) ↔
        ∃ j : Z, 1 ≤ j ∧ t = now w + 300 + 150 * j ∧ t ≤ now w + Z.of_nat D) ∧
  ticks released = ticks held ∧
  idle released ∧
  ticks (elapse E released) = ticks released ∧
  (∀ h, fire h released = released).
Proof.
  intros Hw. cbn zeta.
  destruct (held_state w D Hw) as (Hnow & Hshort & Hrep).
  set (held := elapse D (startHold w)) in *.
  assert (Hstop : idle (stopHold held) ∧ ticks (stopHold held) = ticks held).
  { destruct (Nat.lt_ge_cases D 300) as [HD|HD].
    - destruct (Hshort HD) as [Ha _].
      destruct (stopHold_armedShort _ _ _ Ha) as (? & ? & _). done.
    - destruct (Hrep HD) as [Ha _].
      destruct (stopHold_armedRepeat _ _ _ _ Ha) as (? & ? & _). done. }
  destruct Hstop as [Hidle Hticks].
  split; [by rewrite startHold_idle|].
  split; [intros HD; rewrite Hticks; by apply Hshort|].
  split.
  { intros HD. split; [rewrite Hticks; by apply Hrep|].
    intros t. rewrite elem_of_every.
    pose proof (Nat.div_mod_eq (D - 300) 150) as Hdm.
    pose proof (Nat.mod_upper_bound (D - 300) 150 ltac:(lia)) as Hr.
    split.
    - intros (j & Hj & ->). exists j. split; [lia|]. split; [done|]. lia.
    - intros (j & Hj & -> & Hle). exists j. split; [lia | done]. }
  split; [done|]. split; [done|].
  split; [by apply elapse_idle | intros h; by apply fire_idle].
Qed.

Lemma hold_press_release_witness :
  idle Samples.idleWorld ∧
  ticks (stopHold (elapse 200 (startHold Samples.idleWorld))) = [1000] ∧
  ticks (stopHold (elapse 1000 (startHold Samples.idleWorld))) =
    [1000; 1450; 1600; 1750; 1900].
Proof.
  assert (Hw : idle Samples.idleWorld) by (split; reflexivity).
  split; [exact Hw|]. split.
  - destruct (hold_press_release Samples.idleWorld 200 0 Hw) as (_ & Hshort & _).
    apply Hshort. lia.
  - destruct (hold_press_release Samples.idleWorld 1000 0 Hw) as (_ & _ & Hlong & _).
    destruct Hlong as [Hlong _]; [lia|]. exact Hlong.
Defined.

Lemma tick1_session p w : session p w → session p (tick1 w).
Proof.
  destruct p; unfold session.
  - intros [(h & d & Ha)|(h0 & h & d & Ha)].
    + rewrite (tick1_armedShort _ _ _ Ha). destruct (d <=? now w + 1).
      * right. by exists h, (nextHandle w), (now w + 1 + 150).
      * left. exists h, d. destruct Ha. by split.
    + rewrite (tick1_armedRepeat _ _ _ _ Ha). right.
      destruct (d <=? now w + 1).
      * exists h0, h, (d + 150). destruct Ha. by split.
      * exists h0, h, d. destruct Ha. by split.
  - intros Hw. rewrite tick1_idle by done. by apply later_idle.
Qed.

Lemma elapse_session n p w : session p w → session p (elapse n w).
Proof.
  intros Hw. induction n as [|n IH]; [done|].
  change (elapse (S n) w) with (tick1 (elapse n w)). by apply tick1_session.
Qed.

Lemma stopHold_session p w : session p w → idle (stopHold w).
Proof.
  destruct p; unfold session.
  - intros [(h & d & Ha)|(h0 & h & d & Ha)].
    + by destruct (stopHold_armedShort _ _ _ Ha).
    + by destruct (stopHold_armedRepeat _ _ _ _ Ha).
  - intros Hw. by rewrite stopHold_idle.
Qed.

Lemma session_timers p w : session p w → (List.length (timers w) ≤ 1)%nat.
Proof.
  destruct p; unfold session.
  - intros [(h & d & [-> _])|(h0 & h & d & [-> _])]; cbn; lia.
  - intros [-> _]. cbn. lia.
Qed.

Lemma run_session gs1 : ∀ gs2 p w,
  session p w → alternating p (gs1 ++ gs2) = true →
  ∃ p', session p' (run gs1 w) ∧ alternating p' gs2 = true.
Proof.
  induction gs1 as [|g gs1 IH]; intros gs2 p w Hw Halt; [by eauto|].
  change (run (g :: gs1) w) with (run gs1 (step w g)).
  destruct g as [| |n]; cbn in Halt.
  - apply andb_true_iff in Halt as [Hp Halt]. destruct p; [done|].
    apply (IH gs2 true); [|done]. left.
    exists (nextHandle w), (now w + 300). unfold session in Hw.
    change (step w Press) with (startHold w).
    rewrite startHold_idle by done. by split.
  - apply (IH gs2 false); [|done]. by apply (stopHold_session p).
  - apply (IH gs2 p); [|done]. by apply elapse_session.
Qed.

(** C4, as the code has it.  [startHold] has no guard: whenever it is
    called it fires [fn] and registers a delay timer.  What keeps the
    controller to one armed session is the order of the gestures: as long
    as every press is released before the next press, at any moment at
    most one timer is registered, each press finds the controller idle,
    and it registers exactly one timer. *)
Theorem one_session_when_presses_alternate (w : World) (gs : list Gesture) :
  idle w → alternating false gs = true →
  ∀ gs1 gs2, gs = gs1 ++ gs2 →
    (List.length (timers (run gs1 w)) ≤ 1)%nat ∧
    (∀ gs3, gs2 = Press :: gs3 →
       idle (run gs1 w) ∧
       List.length (timers (run (gs1 ++ [Press]) w)) = 1%nat).
Proof.
  intros Hw Halt gs1 gs2 ->.
  destruct (run_session gs1 gs2 false w Hw Halt) as (p & Hp & Halt').
  split; [by apply (session_timers p)|].
  intros gs3 ->. cbn in Halt'. destruct p; [done|]. unfold session in Hp.
  split; [done|]. unfold run. rewrite fold_left_app.
  change (List.length (timers (startHold (run gs1 w))) = 1%nat).
  by rewrite startHold_idle.
Qed.

Lemma one_session_when_presses_alternate_witness :
  let gs := [Press; Wait 100; Release; Wait 50; Press; Wait 400; Release] in
  idle Samples.idleWorld ∧ alternating false gs = true ∧
  (List.length (timers (run [Press; Wait 100; Release; Wait 50] Samples.idleWorld))
     ≤ 1)%nat ∧
  idle (run [Press; Wait 100; Release; Wait 50] Samples.idleWorld).
Proof.
  intros gs.
  assert (Hw : idle Samples.idleWorld) by (split; reflexivity).
  assert (Halt : alternating false gs = true) by reflexivity.
  split; [exact Hw|]. split; [exact Halt|].
  destruct (one_session_when_presses_alternate Samples.idleWorld gs Hw Halt
              [Press; Wait 100; Release; Wait 50]
              [Press; Wait 400; Release] eq_refl) as [Hlen Hpress].
  split; [exact Hlen|].
  exact (proj1 (Hpress [Wait 400; Release] eq_refl)).
Defined.

(** C4 as the specification words it fails: a second press 100 ms into a
    first one registers a second delay timer and fires [fn] again; when
    both delays have fired two repeat timers run, of which the release
    clears one, and the other keeps ticking with the button up. *)
Lemma second_press_registers_again :
  let armed := run [Press; Wait 100] Samples.idleWorld in
  let again := startHold armed in
  List.length (timers armed) = 1%nat ∧
  List.length (timers again) = 2%nat ∧
  ticks again = [1000; 1100] ∧
  let left := run [Wait 400; Release; Release] again in
  List.length (timers left) = 1%nat ∧
  ticks left = [1000; 1100; 1450] ∧
  ticks (elapse 600 left) = [1000; 1100; 1450; 1600; 1750; 1900; 2050].
Proof. vm_compute. repeat split; reflexivity. Qed.

End HoldClaims.

(** ** Loading from storage *)

Section StorageClaims.
Import Storage.

Lemma loadHistory_unreadable host :
  unreadable host HISTORY → loadHistory host = Returns (JObject ∅).
Proof.
  unfold unreadable, loadHistory.
  intros [->|[->|[->|(raw & -> & Hp)]]]; cbn; try done.
  destruct raw as [|c s]; cbn; [done|]. by rewrite Hp.
Qed.

Lemma loadSettings_unreadable host :
  unreadable host SETTINGS →
  loadSettings host = Returns (settingsObject defaultSettings).
Proof.
  unfold unreadable, loadSettings.
  intros [->|[->|[->|(raw & -> & Hp)]]]; cbn; try done.
  destruct raw as [|c s]; cbn; [done|]. by rewrite Hp.
Qed.

Lemma spread2_lookup (a b : gmap string JSValue) k :
  spread2 a b !! k = match b !! k with Some v => Some v | None => a !! k end.
Proof.
  unfold spread2. rewrite lookup_union. destruct (b !! k), (a !! k); done.
Qed.

(** C7. Whatever the store holds, and even when reading it or parsing it
    throws, [loadHistory] and [loadSettings] return.  A missing, empty or
    unparseable ledger loads as the empty mapping, missing, empty or
    unparseable settings load as the defaults, and parsed settings are
    merged over the defaults field by field: a field the stored blob has
    keeps its stored value, a field it lacks takes its default.  A ledger
    text that parses to a falsy value ([null], [0], ...) loads as the
    empty mapping too; any other parsed value is returned as parsed. *)
Theorem loaders_fall_back (host : Host) :
  (∃ v, loadHistory host = Returns v) ∧
  (∃ m, loadSettings host = Returns m) ∧
  (unreadable host HISTORY → loadHistory host = Returns (JObject ∅)) ∧
  (unreadable host SETTINGS →
   loadSettings host = Returns (settingsObject defaultSettings)) ∧
  (∀ raw p, getItem host SETTINGS = Returns (Some raw) → raw ≠ "" →
            parse host raw = Returns p →
   ∃ m, loadSettings host = Returns m ∧
        ∀ k, m !! k = match spreadProps p !! k with
                      | Some v => Some v
                      | None => settingsObject defaultSettings !! k
                      end) ∧
  (∀ raw v, getItem host HISTORY = Returns (Some raw) → raw ≠ "" →
            parse host raw = Returns v →
   (truthy v = false → loadHistory host = Returns (JObject ∅)) ∧
   (truthy v = true → loadHistory host = Returns v)).
Proof.
  split; [|split; [|split; [|split; [|split]]]].
  - unfold loadHistory, tryCatch. case_match; eauto.
  - unfold loadSettings, tryCatch. case_match; eauto.
  - apply loadHistory_unreadable.
  - apply loadSettings_unreadable.
  - intros raw p Hraw Hne Hp. unfold loadSettings. rewrite Hraw. cbn.
    destruct raw as [|c s]; [done|]. cbn. rewrite Hp. cbn.
    eexists. split; [done|]. intros k. apply spread2_lookup.
  - intros raw v Hraw Hne Hp. unfold loadHistory. rewrite Hraw. cbn.
    destruct raw as [|c s]; [done|]. cbn. rewrite Hp. cbn.
    split; by intros ->.
Qed.

Lemma loaders_fall_back_witness :
  unreadable Samples.staleHost HISTORY ∧
  loadHistory Samples.staleHost = Returns (JObject ∅) ∧
  unreadable Samples.tidyHost SETTINGS ∧
  loadSettings Samples.tidyHost = Returns (settingsObject defaultSettings) ∧
  (∃ m, loadSettings Samples.staleHost = Returns m ∧
        m !! "vibrate" = Some (JBool false) ∧
        m !! "vibrateMs" = Some (JNumber (ofZ 10))) ∧
  loadHistory Samples.tidyHost = Returns (JObject ∅).
Proof.
  assert (Hh : unreadable Samples.staleHost HISTORY).
  { right. right. right. eexists. split; vm_compute; reflexivity. }
  assert (Hs : unreadable Samples.tidyHost SETTINGS).
  { right. left. vm_compute. reflexivity. }
  destruct (loaders_fall_back Samples.staleHost) as (_ & _ & Hhist & _ & Hmerge & _).
  destruct (loaders_fall_back Samples.tidyHost) as (_ & _ & _ & Hdef & _ & Hparsed).
  split; [exact Hh|]. split; [exact (Hhist Hh)|].
  split; [exact Hs|]. split; [exact (Hdef Hs)|].
  split.
  - destruct (Hmerge Samples.oldSettingsText
                (JObject {[ "vibrate" := JBool false ]}))
      as (m & Hm & Hk).
    + vm_compute. reflexivity.
    + vm_compute. discriminate.
    + vm_compute. reflexivity.
    + exists m. split; [exact Hm|]. split.
      * rewrite Hk. vm_compute. reflexivity.
      * rewrite Hk. vm_compute. reflexivity.
  - destruct (Hparsed "{}" (JObject ∅)) as [_ Hkept].
    + vm_compute. reflexivity.
    + discriminate.
    + vm_compute. reflexivity.
    + apply Hkept. reflexivity.
Defined.

Lemma ofZ_inj a b : ofZ a = ofZ b → a = b.
Proof.
  intros H. apply Z2Qc_inj.
  by apply (f_equal (λ n, match n with Finite q => q | _ => 0%Qc end)) in H.
Qed.

Lemma isNonNegativeInteger_ofZ z : isNonNegativeInteger (ofZ z) ↔ 0 ≤ z.
Proof.
  split.
  - intros (z' & Hz & ->%ofZ_inj). done.
  - intros Hz. by exists z.
Qed.

(** C8, as the code has it.  When the store can be read, [loadNumber]
    returns a number, and (the fallback being 0) a finite one: the number
    the stored string stands for when the string is not empty and that
    number is finite, the fallback otherwise.  So a stored non-negative
    integer is restored as it is, missing, empty and non-numeric data give
    0, and a stored negative (or fractional) number is restored as it is
    too: nothing clamps the tally at load time. *)
Theorem loadNumber_finite_or_fallback (host : Host) (raw : option string) :
  getItem host COUNT = Returns raw →
  ∃ n, loadNumber host COUNT (ofZ 0) = Returns n ∧
       isFinite n = true ∧
       (raw = None ∨ raw = Some "" → n = ofZ 0) ∧
       (∀ s, raw = Some s → isFinite (toNumber host s) = false → n = ofZ 0) ∧
       (∀ s, raw = Some s → s ≠ "" → isFinite (toNumber host s) = true →
             n = toNumber host s) ∧
       (∀ s z, raw = Some s → s ≠ "" → toNumber host s = ofZ z →
               n = ofZ z ∧ (isNonNegativeInteger n ↔ 0 ≤ z)).
Proof.
  intros Hraw. unfold loadNumber. rewrite Hraw. cbn.
  eexists. split; [reflexivity|].
  destruct raw as [[|c s]|]; cbn.
  - split; [done|]. split; [done|]. split; [done|].
    split; [by intros ? [= <-] | by intros ? ? [= <-]].
  - destruct (isFinite (toNumber host (String c s))) eqn:Hfin.
    + split; [done|]. split; [by intros [?|?]|].
      split; [intros ? [= <-]; congruence|].
      split; [by intros ? [= <-]|].
      intros ? z [= <-] _ Hz. split; [done|].
      rewrite Hz. apply isNonNegativeInteger_ofZ.
    + split; [done|]. split; [done|]. split; [done|].
      split; [intros ? [= <-]; congruence|].
      intros ? z [= <-] _ Hz. by rewrite Hz in Hfin.
  - split; [done|]. split; [done|]. by split; [|split].
Qed.

Lemma loadNumber_finite_or_fallback_witness :
  getItem Samples.tidyHost COUNT = Returns (Some "7") ∧
  loadNumber Samples.tidyHost COUNT (ofZ 0) = Returns (ofZ 7) ∧
  getItem Samples.emptyHost COUNT = Returns None ∧
  loadNumber Samples.emptyHost COUNT (ofZ 0) = Returns (ofZ 0).
Proof.
  assert (Hraw : getItem Samples.tidyHost COUNT = Returns (Some "7"))
    by (vm_compute; reflexivity).
  assert (Hnone : getItem Samples.emptyHost COUNT = Returns None)
    by (vm_compute; reflexivity).
  split; [exact Hraw|]. split; [|split; [exact Hnone|]].
  - destruct (loadNumber_finite_or_fallback Samples.tidyHost (Some "7") Hraw)
      as (n & Hn & _ & _ & _ & _ & Hint).
    destruct (Hint "7" 7) as [-> _].
    + reflexivity.
    + discriminate.
    + vm_compute. reflexivity.
    + exact Hn.
  - destruct (loadNumber_finite_or_fallback Samples.emptyHost None Hnone)
      as (n & Hn & _ & Hmissing & _).
    rewrite (Hmissing (or_introl eq_refl)) in Hn. exact Hn.
Defined.

(** C8 as the specification words it fails: with ["-5"] in the store the
    tally restored at startup is -5, not a non-negative integer. *)
Lemma loadNumber_restores_negative :
  getItem Samples.staleHost COUNT = Returns (Some "-5") ∧
  loadNumber Samples.staleHost COUNT (ofZ 0) = Returns (ofZ (-5)) ∧
  ¬ isNonNegativeInteger (ofZ (-5)).
Proof.
  split; [vm_compute; reflexivity|]. split; [vm_compute; reflexivity|].
  rewrite isNonNegativeInteger_ofZ. lia.
Qed.

End StorageClaims.

(** ** The older variant of the controller, for comparison *)

Section HoldLegacyFacts.
Import Timers.

Lemma tick1_not_due w :
  Forall (λ t, now w + 1 < due t) (timers w) → tick1 w = later w.
Proof.
  intros Hdue. unfold tick1, dueHandles. cbn [now timers later].
  replace (List.filter (λ t, due t <=? now w + 1) (timers w)) with (@nil Timer);
    [done|].
  induction Hdue as [|t ts Ht _ IH]; [done|]. cbn.
  by rewrite (proj2 (Z.leb_gt (due t) (now w + 1))) by lia.
Qed.

Lemma elapse_not_due n : ∀ w,
  Forall (λ t, now w + Z.of_nat n < due t) (timers w) →
  elapse n w =
    {| now := now w + Z.of_nat n; timers := timers w;
       nextHandle := nextHandle w; ref := ref w; ticks := ticks w |}.
Proof.
  induction n as [|n IH]; intros w Hdue.
  - cbn. rewrite Z.add_0_r. apply world_eq.
  - change (elapse (S n) w) with (tick1 (elapse n w)).
    rewrite IH by (eapply Forall_impl; [exact Hdue | cbn; intros; lia]).
    rewrite tick1_not_due.
    + unfold later. cbn. f_equal. lia.
    + cbn. eapply Forall_impl; [exact Hdue | cbn; intros; lia].
Qed.

(** In the older variant a press fires nothing; released before the delay
    has passed it fires its one tick at the release. *)
Lemma legacy_short_press w (D : nat) :
  idle w → (D < 300)%nat →
  let released := HoldLegacy.stopHold (elapse D (HoldLegacy.startHold w)) in
  ticks (HoldLegacy.startHold w) = ticks w ∧
  ticks released = ticks w ++ [now w + Z.of_nat D] ∧
  idle released.
Proof.
  intros [Ht Hr] HD. cbn zeta.
  assert (Hstart : HoldLegacy.startHold w =
    {| now := now w;
       timers := [{| handle := nextHandle w; due := now w + 300;
                     kind := Timeout; callback := TickThenArm |}];
       nextHandle := S (nextHandle w);
       ref := {| delay := Some (nextHandle w); repeat := None |};
       ticks := ticks w |}).
  { unfold HoldLegacy.startHold. cbn. by rewrite Ht, Hr. }
  rewrite Hstart. split; [done|].
  rewrite elapse_not_due by (cbn; constructor; [cbn; lia | constructor]).
  unfold HoldLegacy.stopHold, clearBoth, idle. cbn.
  by rewrite Nat.eqb_refl.
Qed.

(** Held for a second, the older variant ticks first when the delay
    fires, 300 ms after the press, where [App.tsx] ticks at the press. *)
Lemma legacy_long_press :
  ticks (HoldLegacy.stopHold
           (elapse 1000 (HoldLegacy.startHold Samples.idleWorld))) =
    [1300; 1450; 1600; 1750; 1900] ∧
  ticks (Hold.stopHold (elapse 1000 (Hold.startHold Samples.idleWorld))) =
    [1000; 1450; 1600; 1750; 1900].
Proof. vm_compute. split; reflexivity. Qed.

End HoldLegacyFacts.

(** ** Startup with a stored negative tally *)

Section Startup.
Import Core.

(** With -5 read back as the tally and a record for today in the ledger,
    the first render and its effects leave the tally at -5: the ledger
    effect skips negative tallies and the rollover check sees today's
    record.  The first increment or decrement clamps it. *)
Lemma negative_tally_survives_startup :
  let key := "2024-03-01" in
  let s := Samples.app (-5) (Samples.ledger 0 [("2024-03-01", 3)]) in
  ∃ s', mount 2 key s = Some s' ∧ count s' = -5 ∧
        history s' = history s ∧
        count (increment 1 s') = 0.
Proof. eexists. split; [vm_compute; reflexivity|]. by vm_compute. Qed.

End Startup.

(* ===================================================================== *)
(** * Part III: further properties of the code                            *)
(* ===================================================================== *)

(** ** Rendering, the ledger and storage across the user's actions *)

Section ActionFacts.
Import Core Actions.

Lemma log_runEffects key dc dh s :
  log (runEffects key dc dh false s) = log s ++ saves dc dh s.
Proof.
  unfold runEffects, saves, countEffect, checkDayChange.
  destruct dc, dh; cbn; repeat case_match; cbn;
    rewrite ?app_nil_r, <- ?app_assoc; done.
Qed.

Lemma lastSave_fold {A} (f : Effect → option A) l : ∀ acc,
  fold_left (λ acc e, match f e with Some x => Some x | None => acc end) l acc =
  match fold_left (λ acc e, match f e with Some x => Some x | None => acc end) l None with
  | Some x => Some x
  | None => acc
  end.
Proof.
  induction l as [|e l IH]; intros acc; cbn; [done|].
  rewrite IH. rewrite (IH (match f e with Some x => Some x | None => None end)).
  destruct (fold_left _ l None); [done|]. by destruct (f e).
Qed.

Lemma lastSaveCount_app l1 l2 :
  lastSaveCount (l1 ++ l2) =
  match lastSaveCount l2 with Some n => Some n | None => lastSaveCount l1 end.
Proof.
  unfold lastSaveCount. rewrite fold_left_app.
  pose proof (lastSave_fold (λ e, match e with SaveCount n => Some n | _ => None end) l2)
    as H.
  assert (Heq : ∀ l acc,
    fold_left (λ acc e, match e with SaveCount n => Some n | _ => acc end) l acc =
    fold_left (λ acc e, match (match e with SaveCount n => Some n | _ => None end) with
                        | Some x => Some x | None => acc end) l acc).
  { intros l. induction l as [|e l IH]; intros acc; cbn; [done|].
    rewrite IH. by destruct e. }
  rewrite !Heq. apply H.
Qed.

Lemma lastSaveHistory_app l1 l2 :
  lastSaveHistory (l1 ++ l2) =
  match lastSaveHistory l2 with Some n => Some n | None => lastSaveHistory l1 end.
Proof.
  unfold lastSaveHistory. rewrite fold_left_app.
  pose proof (lastSave_fold (λ e, match e with SaveHistory n => Some n | _ => None end) l2)
    as H.
  assert (Heq : ∀ l acc,
    fold_left (λ acc e, match e with SaveHistory n => Some n | _ => acc end) l acc =
    fold_left (λ acc e, match (match e with SaveHistory n => Some n | _ => None end) with
                        | Some x => Some x | None => acc end) l acc).
  { intros l. induction l as [|e l IH]; intros acc; cbn; [done|].
    rewrite IH. by destruct e. }
  rewrite !Heq. apply H.
Qed.

Lemma lastSaveCount_saves dc dh s :
  lastSaveCount (saves dc dh s) = if dc then Some (count s) else None.
Proof. by destruct dc, dh. Qed.

Lemma lastSaveHistory_saves dc dh s :
  lastSaveHistory (saves dc dh s) = if dh then Some (history s) else None.
Proof. by destruct dc, dh. Qed.

(** What one commit leaves: the tally is reset when the rollover check ran
    and found no record for today; today's record is then [{today, 0}],
    else it holds the tally when the ledger effect ran on a tally of 0 or
    more, else the ledger is the same object; other dates are untouched. *)
Lemma runEffects_result key dc dh s :
  let absent := bool_decide (entries (history s) !! key = None) in
  let s1 := runEffects key dc dh false s in
  count s1 = (if dh && absent then 0 else count s) ∧
  (∀ k, k ≠ key → entries (history s1) !! k = entries (history s) !! k) ∧
  (if dh && absent
   then entries (history s1) !! key = Some {| date := key; total := 0 |}
   else if dc && (0 <=? count s)
        then total <$> entries (history s1) !! key = Some (count s)
        else history s1 = history s).
Proof.
  cbn zeta. unfold runEffects. cbn zeta.
  set (sa := if dc then emit (SaveCount (count s)) s else s).
  set (sb := if dh then emit (SaveHistory (history s)) sa else sa).
  assert (Hb : count sb = count s ∧ history sb = history s)
    by (unfold sb, sa; destruct dc, dh; done).
  clearbody sb. clear sa. destruct Hb as (Hcb & Hhb).
  set (sc := if dc then countEffect key (count s) sb else sb).
  assert (Hc : count sc = count s ∧
               (∀ k, k ≠ key → entries (history sc) !! k = entries (history s) !! k) ∧
               (if dc && (0 <=? count s)
                then total <$> entries (history sc) !! key = Some (count s)
                else history sc = history s)).
  { unfold sc. destruct dc; [|by rewrite Hhb]. unfold countEffect. cbn [andb].
    destruct (Z.ltb_spec (count s) 0) as [Hneg|Hpos].
    - rewrite (proj2 (Z.leb_gt _ _)) by lia. by rewrite Hhb.
    - rewrite (proj2 (Z.leb_le _ _)) by lia. cbn [count history setHistory].
      split; [done|]. split.
      + intros k Hk. rewrite upsert_other by done. by rewrite Hhb.
      + by apply upsert_total. }
  clearbody sc. destruct Hc as (Hcc & Hoc & Hkc).
  destruct dh; cbn [andb]; [|done].
  unfold checkDayChange. case_bool_decide as Habs.
  - rewrite Habs. cbn. split; [done|]. split; [|apply lookup_insert_eq].
    intros k Hk. rewrite lookup_insert_ne by done. by apply Hoc.
  - destruct (entries (history s) !! key) eqn:E; [|done]. done.
Qed.

(** Two commits bring the component to rest; this is what they leave and
    what they wrote. *)
Lemma settle_two_full key prev cur :
  wellFormed cur →
  let dc := countChanged prev cur in
  let dh := historyChanged prev cur in
  ∃ s',
    settle 2 key prev cur = Some s' ∧ wellFormed s' ∧
    if negb (dc || dh) then s' = cur
    else
      let s1 := runEffects key dc dh false cur in
      let dc2 := countChanged cur s1 in
      let dh2 := historyChanged cur s1 in
      count s' = count s1 ∧ history s' = history s1 ∧
      log s' = log s1 ++ (if negb (dc2 || dh2) then [] else saves dc2 dh2 s1).
Proof.
  intros Hwf. cbn zeta. cbn [settle].
  destruct (negb (countChanged prev cur || historyChanged prev cur)); [by eauto|].
  set (dc := countChanged prev cur). set (dh := historyChanged prev cur).
  destruct (runEffects_round key dc dh cur Hwf) as (Hw1 & Hc1 & Hh1).
  set (s1 := runEffects key dc dh false cur) in *. clearbody s1.
  destruct (negb (countChanged cur s1 || historyChanged cur s1)) eqn:E1.
  { exists s1. by rewrite app_nil_r. }
  destruct (runEffects_quiet key (countChanged cur s1) (historyChanged cur s1) s1)
    as (Hc2 & Hh2).
  - unfold countChanged. intros Hne%negb_true_iff%Z.eqb_neq.
    destruct Hc1 as [?|[-> ->]]; [congruence | by right].
  - unfold historyChanged. intros Hne%negb_true_iff%Nat.eqb_neq.
    destruct Hh1 as [Heq|[_ ?]]; [by rewrite Heq in Hne | done].
  - destruct (runEffects_round key (countChanged cur s1) (historyChanged cur s1)
                s1 Hw1) as (Hw2 & _ & _).
    pose proof (log_runEffects key (countChanged cur s1) (historyChanged cur s1) s1)
      as Hlog.
    set (s2 := runEffects key _ _ false s1) in *.
    exists s2.
    assert (Hrest : negb (countChanged s1 s2 || historyChanged s1 s2) = true).
    { unfold countChanged, historyChanged.
      by rewrite Hc2, Hh2, Z.eqb_refl, Nat.eqb_refl. }
    rewrite Hrest. done.
Qed.

Lemma settle_atRest key prev cur :
  wellFormed cur →
  let dc := countChanged prev cur in
  let dh := historyChanged prev cur in
  let absent := bool_decide (entries (history cur) !! key = None) in
  (dc = false → lastSaveCount (log cur) = Some (count cur)) →
  (dh = false → lastSaveHistory (log cur) = Some (history cur)) →
  (dh && absent = false → dc && (0 <=? count cur) = false →
   ledgerHoldsTally key cur) →
  ∃ s', settle 2 key prev cur = Some s' ∧ atRest key s' ∧
        count s' = (if dh && absent then 0 else count cur) ∧
        (∀ k, k ≠ key → entries (history s') !! k = entries (history cur) !! k) ∧
        (dc = false → dh = false → s' = cur).
Proof.
  intros Hwf. cbn zeta. intros Hsc Hsh Hled.
  destruct (settle_two_full key prev cur Hwf) as (s' & Hs' & Hwf' & Hres).
  exists s'. split; [done|].
  set (dc := countChanged prev cur) in *. set (dh := historyChanged prev cur) in *.
  destruct (negb (dc || dh)) eqn:Eflags.
  { apply negb_true_iff, orb_false_iff in Eflags as [Edc Edh]. subst s'.
    rewrite Edh. cbn [andb].
    split; [|split; [done|split; done]].
    split; [done|]. split; [|split; [by apply Hsc | by apply Hsh]].
    apply Hled; [by rewrite Edh | by rewrite Edc]. }
  cbn zeta in Hres. destruct Hres as (Hc & Hh & Hlog).
  destruct (runEffects_result key dc dh cur) as (Hrc & Hro & Hrk).
  destruct (runEffects_round key dc dh cur Hwf) as (_ & _ & Hrh).
  rewrite log_runEffects in Hlog.
  set (s1 := runEffects key dc dh false cur) in *. clearbody s1.
  set (absent := bool_decide (entries (history cur) !! key = None)) in *.
  assert (Hsame_c : countChanged cur s1 = false → count s1 = count cur).
  { unfold countChanged. intros H%negb_false_iff%Z.eqb_eq. done. }
  assert (Hsame_h : historyChanged cur s1 = false → history s1 = history cur).
  { unfold historyChanged. intros H%negb_false_iff%Nat.eqb_eq.
    destruct Hrh as [?|[? _]]; [done | lia]. }
  split; [|split; [congruence|split]].
  - split; [done|]. split.
    + unfold ledgerHoldsTally. rewrite Hc, Hh, Hrc.
      destruct (dh && absent) eqn:E1; [by rewrite Hrk|].
      destruct (dc && (0 <=? count cur)) eqn:E2; [done|].
      rewrite Hrk. by apply Hled.
    + split.
      * rewrite Hlog, !lastSaveCount_app, Hc.
        destruct (negb (countChanged cur s1 || historyChanged cur s1)) eqn:E2.
        -- apply negb_true_iff, orb_false_iff in E2 as [E2 _].
           cbn. rewrite lastSaveCount_saves, (Hsame_c E2).
           destruct dc eqn:Edc; [done | by apply Hsc].
        -- rewrite !lastSaveCount_saves.
           destruct (countChanged cur s1) eqn:E3; [done|].
           rewrite (Hsame_c eq_refl).
           destruct dc eqn:Edc; [done | by apply Hsc].
      * rewrite Hlog, !lastSaveHistory_app, Hh.
        destruct (negb (countChanged cur s1 || historyChanged cur s1)) eqn:E2.
        -- apply negb_true_iff, orb_false_iff in E2 as [_ E2].
           cbn. rewrite lastSaveHistory_saves, (Hsame_h E2).
           destruct dh eqn:Edh; [done | by apply Hsh].
        -- rewrite !lastSaveHistory_saves.
           destruct (historyChanged cur s1) eqn:E3; [done|].
           rewrite (Hsame_h eq_refl).
           destruct dh eqn:Edh; [done | by apply Hsh].
  - intros k Hk. rewrite Hh. by apply Hro.
  - intros -> ->. done.
Qed.

Lemma doVibrate_frame s :
  count (doVibrate s) = count s ∧ history (doVibrate s) = history s ∧
  heapNext (doVibrate s) = heapNext s ∧
  lastSaveCount (log (doVibrate s)) = lastSaveCount (log s) ∧
  lastSaveHistory (log (doVibrate s)) = lastSaveHistory (log s).
Proof.
  unfold doVibrate. repeat case_match; try done.
  cbn [emit count history heapNext log].
  by rewrite lastSaveCount_app, lastSaveHistory_app.
Qed.

(** The handlers that only touch the tally: they keep the ledger object,
    write nothing, and leave a tally of 0 or more unless they leave the
    tally as it is. *)
Lemma tally_handler_frame key a s :
  a ≠ ClickClearToday → a ≠ RolloverCheck →
  let s' := handler key a s in
  history s' = history s ∧ heapNext s' = heapNext s ∧
  lastSaveCount (log s') = lastSaveCount (log s) ∧
  lastSaveHistory (log s') = lastSaveHistory (log s) ∧
  (count s' = count s ∨ 0 ≤ count s').
Proof.
  intros Hc Hr. cbn zeta.
  assert (Hinc : ∀ k,
    history (increment k s) = history s ∧ heapNext (increment k s) = heapNext s ∧
    lastSaveCount (log (increment k s)) = lastSaveCount (log s) ∧
    lastSaveHistory (log (increment k s)) = lastSaveHistory (log s) ∧
    (count (increment k s) = count s ∨ 0 ≤ count (increment k s))).
  { intros k. rewrite count_increment. unfold increment.
    destruct (doVibrate_frame (setCount (λ c, Z.max 0 (Double.round (c + k)))
                                        (setDirection inc s)))
      as (_ & -> & -> & -> & ->). repeat split; try done. right. lia. }
  assert (Hdec : ∀ k,
    history (decrement k s) = history s ∧ heapNext (decrement k s) = heapNext s ∧
    lastSaveCount (log (decrement k s)) = lastSaveCount (log s) ∧
    lastSaveHistory (log (decrement k s)) = lastSaveHistory (log s) ∧
    (count (decrement k s) = count s ∨ 0 ≤ count (decrement k s))).
  { intros k. rewrite count_decrement. unfold decrement. cbn zeta.
    destruct (hapticsOnDecrement _).
    - destruct (doVibrate_frame (setCount (λ c, Z.max 0 (Double.round (c - k)))
                                          (setDirection dec s)))
        as (_ & -> & -> & -> & ->). repeat split; try done. right. lia.
    - repeat split; try done. right. lia. }
  assert (Hreset :
    history (reset s) = history s ∧ heapNext (reset s) = heapNext s ∧
    lastSaveCount (log (reset s)) = lastSaveCount (log s) ∧
    lastSaveHistory (log (reset s)) = lastSaveHistory (log s) ∧
    (count (reset s) = count s ∨ 0 ≤ count (reset s))).
  { repeat split; try done. right. cbn. lia. }
  destruct a as [| | | |b k|]; cbn [handler]; try done; auto.
  unfold onKey. repeat case_match; auto; repeat split; auto.
Qed.

(** One action on a component at rest: the renders it causes end, at rest
    again.  "Clear today" ends with the tally at 0, the other actions with
    the tally their handler computed; no other date's record changes. *)
Lemma act_atRest key a s :
  atRest key s →
  ∃ s', act 2 key a s = Some s' ∧ atRest key s' ∧
        count s' = (match a with
                    | ClickClearToday => 0
                    | _ => count (handler key a s)
                    end) ∧
        (∀ k, k ≠ key → entries (history s') !! k = entries (history s) !! k).
Proof.
  intros (Hwf & Hled & Hsc & Hsh). unfold act, dispatch.
  assert (Hsome : is_Some (entries (history s) !! key))
    by (by apply (is_Some_of_total _ (count s))).
  assert (Hcases : a = RolloverCheck ∨ a = ClickClearToday ∨
                   (a ≠ ClickClearToday ∧ a ≠ RolloverCheck))
    by (destruct a; auto).
  destruct Hcases as [->|[->|[Hc Hr]]].
  { cbn [handler]. unfold checkDayChange. destruct Hsome as [r Hr]. rewrite Hr.
    exists s. split; [by apply settle_at_rest|]. by repeat split. }
  { cbn [handler]. destruct Hsome as [r Hr].
    pose proof (wellFormed_clearToday key s Hwf) as Hwf'.
    assert (Hcur : count (clearToday key s) = count s ∧
                   entries (history (clearToday key s)) = delete key (entries (history s)) ∧
                   log (clearToday key s) = log s ∧
                   historyChanged s (clearToday key s) = true).
    { unfold clearToday, historyChanged. rewrite Hr. cbn. repeat split.
      apply negb_true_iff, Nat.eqb_neq. unfold wellFormed in Hwf. lia. }
    destruct Hcur as (Hcc & Hce & Hcl & Hch).
    destruct (settle_atRest key s (clearToday key s) Hwf') as (s' & Hs' & Hrest & Hcnt & Hoth & _).
    - intros _. by rewrite Hcl, Hcc.
    - by rewrite Hch.
    - rewrite Hch, Hce, lookup_delete_eq. by rewrite bool_decide_eq_true_2.
    - exists s'. split; [done|]. split; [done|].
      rewrite Hch, Hce, lookup_delete_eq, bool_decide_eq_true_2 in Hcnt by done.
      split; [done|]. intros k Hk. rewrite Hoth, Hce by done.
      by apply lookup_delete_ne. }
  destruct (tally_handler_frame key a s Hc Hr) as (Hh & Hn & Hlc & Hlh & Hcount).
  set (cur := handler key a s) in *.
  assert (Hdh : historyChanged s cur = false).
  { unfold historyChanged. by rewrite Hh, Nat.eqb_refl. }
  destruct (settle_atRest key s cur) as (s' & Hs' & Hrest & Hcnt & Hoth & _).
  - unfold wellFormed. by rewrite Hh, Hn.
  - unfold countChanged. intros Heq%negb_false_iff%Z.eqb_eq.
    by rewrite Hlc, Hsc, Heq.
  - intros _. by rewrite Hlh, Hsh, Hh.
  - intros _ Hdc. unfold ledgerHoldsTally. rewrite Hh.
    destruct (countChanged s cur) eqn:Edc.
    + cbn in Hdc. apply Z.leb_gt in Hdc.
      destruct Hcount as [Heq|?]; [|lia].
      unfold countChanged in Edc. by rewrite Heq, Z.eqb_refl in Edc.
    + unfold countChanged in Edc. apply negb_false_iff, Z.eqb_eq in Edc.
      by rewrite <- Edc.
  - exists s'. split; [done|]. split; [done|]. rewrite Hdh in Hcnt. cbn in Hcnt.
    split; [by destruct a | ]. intros k Hk. rewrite Hoth by done. by rewrite Hh.
Qed.

Lemma handler_nonneg key a s :
  atRest key s → 0 ≤ count s → a ≠ ClickClearToday →
  0 ≤ count (handler key a s).
Proof.
  intros (_ & Hled & _) Hs Hc.
  assert (Hcases : a = RolloverCheck ∨ a ≠ RolloverCheck) by (destruct a; auto).
  destruct Hcases as [->|Hr].
  - cbn. unfold checkDayChange.
    destruct (is_Some_of_total _ _ Hled) as [r ->]. done.
  - destruct (tally_handler_frame key a s Hc Hr) as (_ & _ & _ & _ & [->|?]); done.
Qed.

Lemma runEffects_first key s :
  let m := runEffects key true true true s in
  let f := runEffects key true true false s in
  count m = count f ∧ history m = history f ∧ heapNext m = heapNext f ∧
  log m = log s ++ [SaveCount (count s); SaveHistory (history s);
                    SaveSettings (settings s)].
Proof.
  cbn zeta. unfold runEffects, countEffect, checkDayChange. cbn zeta.
  repeat case_match; cbn; rewrite <- ?app_assoc; done.
Qed.

End ActionFacts.

Ltac solve_atRest :=
  split; [unfold Core.wellFormed; cbn; lia|];
  split; [by vm_compute | by split].

Section ActionProperties.
Import Core Actions.

(** X1. Starting from a component at rest, after any sequence of button
    ticks, key presses, resets, "clear today" clicks and rollover checks
    made on one day, the renders have ended, today's ledger record holds
    the tally, the last values written to storage are the tally and the
    ledger of the state, a tally of 0 or more is still 0 or more, and no
    other date's record has changed. *)
Theorem actions_keep_ledger_and_storage (key : string) (acts : list Action)
    (s : App) :
  atRest key s →
  ∃ s', actAll 2 key acts s = Some s' ∧ atRest key s' ∧
        (0 ≤ count s → 0 ≤ count s') ∧
        (∀ k, k ≠ key → entries (history s') !! k = entries (history s) !! k).
Proof.
  revert s. induction acts as [|a acts IH]; intros s Hrest; [by eauto|].
  destruct (act_atRest key a s Hrest) as (s1 & Hact & Hrest1 & Hcount & Hother).
  destruct (IH s1 Hrest1) as (s' & Hall & Hrest' & Hnn & Hother').
  exists s'. cbn [actAll]. rewrite Hact. split; [done|]. split; [done|]. split.
  - intros Hs. apply Hnn. rewrite Hcount.
    assert (Hcases : a = ClickClearToday ∨ a ≠ ClickClearToday)
      by (destruct a; auto).
    destruct Hcases as [->|Hc]; [done|].
    pose proof (handler_nonneg key a s Hrest Hs Hc). by destruct a.
  - intros k Hk. by rewrite Hother', Hother.
Qed.

Lemma actions_keep_ledger_and_storage_witness :
  let acts := [TickPlus; TickPlus; KeyDown false "r"; TickMinus;
               KeyDown true "+"; ClickClearToday; RolloverCheck; TickPlus] in
  atRest "2024-03-01" restingApp ∧
  ∃ s', actAll 2 "2024-03-01" acts restingApp = Some s' ∧
        atRest "2024-03-01" s'.
Proof.
  intros acts.
  assert (H0 : atRest "2024-03-01" restingApp) by solve_atRest.
  split; [exact H0|].
  destruct (actions_keep_ledger_and_storage "2024-03-01" acts restingApp H0)
    as (s' & Hall & Hrest & _).
  exists s'. split; [exact Hall | exact Hrest].
Defined.

(** X4. On a component at rest "reset" and "clear today" end the same way:
    the tally is 0, today's record is still in the ledger with total 0,
    and every other date's record is as before. *)
Theorem reset_and_clearToday_agree (key : string) (s : App) :
  atRest key s →
  ∃ s1 s2,
    act 2 key ClickReset s = Some s1 ∧ act 2 key ClickClearToday s = Some s2 ∧
    count s1 = 0 ∧ count s2 = 0 ∧
    total <$> entries (history s1) !! key = Some 0 ∧
    total <$> entries (history s2) !! key = Some 0 ∧
    ∀ k, k ≠ key → entries (history s1) !! k = entries (history s2) !! k.
Proof.
  intros Hrest.
  destruct (act_atRest key ClickReset s Hrest) as (s1 & H1 & (_ & Hl1 & _) & Hc1 & Ho1).
  destruct (act_atRest key ClickClearToday s Hrest)
    as (s2 & H2 & (_ & Hl2 & _) & Hc2 & Ho2).
  exists s1, s2. cbn in Hc1. unfold ledgerHoldsTally in *.
  rewrite Hc1 in Hl1. rewrite Hc2 in Hl2.
  repeat split; try done. intros k Hk. by rewrite Ho1, Ho2.
Qed.

Lemma reset_and_clearToday_agree_witness :
  atRest "2024-03-01" restingApp ∧
  ∃ s1 s2,
    act 2 "2024-03-01" ClickReset restingApp = Some s1 ∧
    act 2 "2024-03-01" ClickClearToday restingApp = Some s2 ∧
    count s1 = 0 ∧ count s2 = 0.
Proof.
  assert (H0 : atRest "2024-03-01" restingApp) by solve_atRest.
  split; [exact H0|].
  destruct (reset_and_clearToday_agree "2024-03-01" restingApp H0)
    as (s1 & s2 & H1 & H2 & Hc1 & Hc2 & _).
  exists s1, s2. repeat split; assumption.
Defined.

(** X2. The first render.  When the tally read back is 0 or more, or the
    ledger has no record for today, mounting ends at rest: with a record
    for today the tally is kept and written into that record; without one
    (a new day, or a first run) the tally restarts at 0 whatever was
    stored, and the record [{today, 0}] is created.  No other date's
    record changes. *)
Theorem mount_starts_the_day (key : string) (s : App) :
  wellFormed s →
  0 ≤ count s ∨ entries (history s) !! key = None →
  ∃ s', mount 2 key s = Some s' ∧ atRest key s' ∧
        (is_Some (entries (history s) !! key) → count s' = count s) ∧
        (entries (history s) !! key = None → count s' = 0) ∧
        (∀ k, k ≠ key → entries (history s') !! k = entries (history s) !! k).
Proof.
  intros Hwf Hok. unfold mount.
  destruct (runEffects_first key s) as (Hmc & Hmh & Hmn & Hml).
  destruct (runEffects_result key true true s) as (Hrc & Hro & Hrk).
  destruct (runEffects_round key true true s Hwf) as (Hwf1 & _ & Hrh).
  set (cur := runEffects key true true true s) in *.
  set (f := runEffects key true true false s) in *. clearbody cur f.
  rewrite <- Hmc in Hrc. rewrite <- Hmh in Hro, Hrk, Hrh. cbn [andb] in Hrc, Hrk.
  assert (Hwfc : wellFormed cur) by (unfold wellFormed in *; by rewrite Hmh, Hmn).
  assert (Hled : ledgerHoldsTally key cur ∧ is_Some (entries (history cur) !! key)).
  { unfold ledgerHoldsTally. rewrite Hrc. case_bool_decide as Habs.
    - rewrite Hrk. split; [done | by eauto].
    - destruct Hok as [Hpos|?]; [|done].
      rewrite (proj2 (Z.leb_le _ _) Hpos) in Hrk. split; [done|].
      by apply (is_Some_of_total _ _ Hrk). }
  destruct Hled as [Hled Hsome].
  destruct (settle_atRest key s cur Hwfc) as (s' & Hs' & Hrest & Hcnt & Hoth & _).
  - unfold countChanged. intros Heq%negb_false_iff%Z.eqb_eq.
    rewrite Hml, lastSaveCount_app. cbn. by rewrite Heq.
  - unfold historyChanged. intros Heq%negb_false_iff%Nat.eqb_eq.
    rewrite Hml, lastSaveHistory_app. cbn.
    destruct Hrh as [->|[? _]]; [done | lia].
  - done.
  - exists s'. split; [done|]. split; [done|].
    assert (Habs : bool_decide (entries (history cur) !! key = None) = false).
    { apply bool_decide_eq_false_2. destruct Hsome as [r ->]. done. }
    rewrite Habs, andb_false_r in Hcnt. rewrite Hcnt, Hrc.
    split; [|split].
    + intros [r Hr]. rewrite bool_decide_eq_false_2; [done | by rewrite Hr].
    + intros Hnone. by rewrite bool_decide_eq_true_2.
    + intros k Hk. by rewrite Hoth, Hro.
Qed.

Lemma mount_starts_the_day_witness :
  let s := Samples.app 9 (Samples.ledger 0 [("2024-02-29", 9)]) in
  let t := Samples.app 9 (Samples.ledger 0 [("2024-03-01", 4)]) in
  wellFormed s ∧ entries (history s) !! "2024-03-01" = None ∧
  (∃ s', mount 2 "2024-03-01" s = Some s' ∧ count s' = 0) ∧
  wellFormed t ∧ 0 ≤ count t ∧
  (∃ t', mount 2 "2024-03-01" t = Some t' ∧ count t' = 9).
Proof.
  intros s t.
  assert (Hws : wellFormed s) by (unfold wellFormed; cbn; lia).
  assert (Hwt : wellFormed t) by (unfold wellFormed; cbn; lia).
  assert (Hnone : entries (history s) !! "2024-03-01" = None) by (by vm_compute).
  assert (Hpos : 0 ≤ count t) by (cbn; lia).
  split; [exact Hws|]. split; [exact Hnone|]. split.
  - destruct (mount_starts_the_day "2024-03-01" s Hws (or_intror Hnone))
      as (s' & Hm & _ & _ & Hzero & _).
    exists s'. split; [exact Hm | exact (Hzero Hnone)].
  - split; [exact Hwt|]. split; [exact Hpos|].
    destruct (mount_starts_the_day "2024-03-01" t Hwt (or_introl Hpos))
      as (t' & Hm & _ & Hkeep & _).
    exists t'. split; [exact Hm|]. apply Hkeep.
    exists {| date := "2024-03-01"; total := 4 |}. by vm_compute.
Defined.

(** X3. Between midnight and the next rollover check the ledger has no
    record for the new day.  A tick of the + button made then, on a tally
    below 2^53 (where adding 1 is exact), does not start the day at 0: the
    tally goes on from yesterday's value, the new day's record is created
    with it, and the rollover check that comes afterwards finds the record
    and resets nothing. *)
Theorem tick_before_rollover_carries_tally (key : string) (s : App) :
  wellFormed s → synced s → 0 ≤ count s < 2 ^ 53 →
  entries (history s) !! key = None →
  ∃ s', act 2 key TickPlus s = Some s' ∧ atRest key s' ∧
        count s' = count s + 1 ∧
        handler key RolloverCheck s' = s' ∧
        (∀ k, k ≠ key → entries (history s') !! k = entries (history s) !! k).
Proof.
  intros Hwf [Hsc Hsh] Hpos Hnone. unfold act, dispatch.
  assert (Hne : ClickClearToday ≠ TickPlus ∧ RolloverCheck ≠ TickPlus) by done.
  destruct (tally_handler_frame key TickPlus s) as (Hh & Hn & Hlc & Hlh & _);
    [done..|].
  pose proof (count_increment_exact 1 s ltac:(lia)) as Hcount.
  cbn [handler] in *. set (cur := increment 1 s) in *.
  assert (Hdh : historyChanged s cur = false).
  { unfold historyChanged. by rewrite Hh, Nat.eqb_refl. }
  assert (Hdc : countChanged s cur = true).
  { unfold countChanged. apply negb_true_iff, Z.eqb_neq. lia. }
  destruct (settle_atRest key s cur) as (s' & Hs' & Hrest & Hcnt & Hoth & _).
  - unfold wellFormed. by rewrite Hh, Hn.
  - by rewrite Hdc.
  - intros _. by rewrite Hlh, Hsh, Hh.
  - rewrite Hdc. cbn. intros _ Hneg%Z.leb_gt. lia.
  - exists s'. split; [done|]. split; [done|]. rewrite Hdh in Hcnt. cbn in Hcnt.
    split; [lia|]. split.
    + destruct Hrest as (_ & Hled & _). unfold checkDayChange.
      destruct (is_Some_of_total _ _ Hled) as [r ->]. done.
    + intros k Hk. rewrite Hoth by done. by rewrite Hh.
Qed.

Lemma tick_before_rollover_carries_tally_witness :
  let s := restingApp in
  wellFormed s ∧ synced s ∧ 0 ≤ count s < 2 ^ 53 ∧
  entries (history s) !! "2024-03-02" = None ∧
  ∃ s', act 2 "2024-03-02" TickPlus s = Some s' ∧ count s' = 4.
Proof.
  intros s.
  assert (Hwf : wellFormed s) by (unfold wellFormed; cbn; lia).
  assert (Hsy : synced s) by (by split).
  assert (Hpos : 0 ≤ count s < 2 ^ 53) by (cbn; lia).
  assert (Hnone : entries (history s) !! "2024-03-02" = None) by (by vm_compute).
  split; [exact Hwf|]. split; [exact Hsy|]. split; [exact Hpos|].
  split; [exact Hnone|].
  destruct (tick_before_rollover_carries_tally "2024-03-02" s Hwf Hsy Hpos Hnone)
    as (s' & Hact & _ & Hc & _).
  exists s'. split; [exact Hact | exact Hc].
Defined.

End ActionProperties.

(** ** Haptic feedback *)

Section Haptics.
Import Core Actions.

Lemma applyOp_log o s :
  settings (applyOp o s) = settings s ∧ canVibrate (applyOp o s) = canVibrate s ∧
  log (applyOp o s) =
    log s ++
    (if vibrate (settings s) && canVibrate s &&
        match o with OpInc _ => true | OpDec _ => hapticsOnDecrement (settings s) end
     then [Vibrate (vibrateMs (settings s))] else []).
Proof.
  destruct s as [c h [v ms ar hd] d n cv l].
  destruct o as [k|k]; cbn [applyOp]; unfold increment, decrement, doVibrate;
    destruct v, cv, hd; cbn; rewrite ?app_nil_r; done.
Qed.

(** X5. Over any sequence of increments and decrements the settings are
    left alone, and the haptic pulses asked of the device are exactly
    these: none at all when [vibrate] is off or the device has no
    vibration; otherwise one pulse of [vibrateMs] per increment, and one
    per decrement only when [hapticsOnDecrement] is on. *)
Theorem haptics_follow_settings (ops : list Op) (s : App) :
  settings (runOps ops s) = settings s ∧
  log (runOps ops s) =
    log s ++
    (if vibrate (settings s) && canVibrate s
     then replicate (pulses (hapticsOnDecrement (settings s)) ops)
                    (Vibrate (vibrateMs (settings s)))
     else []).
Proof.
  revert s. induction ops as [|o ops IH]; intros s.
  - cbn. split; [done|]. destruct (_ && _); by rewrite app_nil_r.
  - change (runOps (o :: ops) s) with (runOps ops (applyOp o s)).
    destruct (applyOp_log o s) as (Hs & Hv & Hl).
    destruct (IH (applyOp o s)) as [IHs IHl].
    rewrite IHs, IHl, Hs, Hv, Hl. split; [done|].
    rewrite <- app_assoc. f_equal. unfold pulses. cbn [List.filter].
    destruct (vibrate (settings s) && canVibrate s); cbn [andb]; [|done].
    destruct o; [done|]. by destruct (hapticsOnDecrement (settings s)).
Qed.

End Haptics.

(** ** More on the streak *)

Section StreakProperties.
Import Calendar Clock Streak.

(** X6. The streak depends on the ledger only through the set of dates
    whose total is above 0: two ledgers with the same such dates have the
    same streak, in every zone and at every time, so a day recorded with
    total 0 counts exactly like a day with no record, and dropping all
    such records changes nothing. *)
Theorem streak_sees_only_positive_days (zone : Zone) (fuel : nat)
    (h1 h2 : History) (now : Moment) :
  (qualifyingKeys h1 = qualifyingKeys h2 →
   calcStreak zone (S fuel) h1 now = calcStreak zone (S fuel) h2 now) ∧
  (entries h2 = filter (λ kv : string * DayLog, 0 < total kv.2) (entries h1) →
   calcStreak zone (S fuel) h1 now = calcStreak zone (S fuel) h2 now).
Proof.
  assert (Hmain : qualifyingKeys h1 = qualifyingKeys h2 →
                  calcStreak zone (S fuel) h1 now = calcStreak zone (S fuel) h2 now).
  { intros Hq. rewrite !calcStreak_walk. unfold cursorStart.
    by rewrite !streakSet_qualifyingKeys, Hq. }
  split; [done|]. intros Hf. apply Hmain. apply set_eq. intros k.
  rewrite !elem_of_qualifyingKeys, Hf. split.
  - intros (r & Hr & Hpos). exists r. split; [|done].
    by apply map_lookup_filter_Some.
  - intros (r & Hr & Hpos). exists r. split; [|done].
    by apply map_lookup_filter_Some in Hr as [Hr _].
Qed.

Lemma streak_sees_only_positive_days_witness :
  let h1 := Samples.ledger 0 [("2024-03-01", 0); ("2024-02-29", 3)] in
  let h2 := Samples.ledger 5 [("2024-02-29", 8)] in
  let now := Samples.at_ Samples.march1 12 0 in
  qualifyingKeys h1 = qualifyingKeys h2 ∧
  calcStreak Samples.utc 3 h1 now = calcStreak Samples.utc 3 h2 now.
Proof.
  intros h1 h2 now.
  assert (Hq : qualifyingKeys h1 = qualifyingKeys h2) by (by vm_compute).
  split; [exact Hq|].
  exact (proj1 (streak_sees_only_positive_days Samples.utc 2 h1 h2 now) Hq).
Defined.



End StreakProperties.

(** ** The history overlay *)

Section HistoryViewProperties.
Import Calendar Clock Streak HistoryView.

Lemma daysBefore_within d i :
  validDate d → Z.of_nat i < getDate d →
  daysBefore i d =
    {| getFullYear := getFullYear d; getMonth := getMonth d;
       getDate := getDate d - Z.of_nat i |}.
Proof.
  intros Hv. induction i as [|i IH]; intros Hi.
  - cbn. destruct d; cbn. f_equal. lia.
  - rewrite daysBefore_succ, IH by lia. unfold previousDay. cbn.
    rewrite (proj2 (Z.ltb_lt _ _)) by lia. f_equal. lia.
Qed.

Lemma daysBefore_add a b d : daysBefore (a + b) d = daysBefore a (daysBefore b d).
Proof. unfold daysBefore. apply Nat.iter_add. Qed.

(** The day a setter computes for "today's day of the month minus [i]" is
    the day [i] days back. *)
Lemma dayOfMonth_daysBefore now i :
  validDate now →
  dayOfMonth (getDate now - Z.of_nat i) now = daysBefore i now.
Proof.
  intros Hv. pose proof Hv as [_ Hd]. unfold dayOfMonth.
  destruct (Z.leb_spec 1 (getDate now - Z.of_nat i)) as [Hin|Hout].
  - by rewrite daysBefore_within by (done || lia).
  - replace i with (Z.to_nat (1 - (getDate now - Z.of_nat i)) +
                    Z.to_nat (getDate now - 1))%nat at 2 by lia.
    rewrite daysBefore_add, (daysBefore_within now) by (done || lia).
    do 2 f_equal. lia.
Qed.

Lemma row_spec zone h now i :
  validDate (fields now) →
  lands zone now i →
  row zone h now i = (dayKey i (fields now),
                      match entries h !! dayKey i (fields now) with
                      | Some r => total r
                      | None => 0
                      end) ∧
  (0 < (row zone h now i).2 ↔ qualifies h (daysBefore i (fields now))).
Proof.
  intros Hv Hl. unfold row, setDateBack. cbn zeta.
  rewrite dayOfMonth_daysBefore by done. unfold lands in Hl. rewrite Hl.
  split; [done|]. cbn. unfold qualifies, dayKey.
  destruct (entries h !! todayKeyForDate (daysBefore i (fields now))) as [r|]; split.
  - eauto.
  - by intros (? & [= <-] & ?).
  - lia.
  - by intros (? & [=] & _).
Qed.

(** X8. The history overlay has 14 rows.  In a zone that has today's time
    of day on each of the 14 days (or skips it within the day), row [i] is
    the day [i] days before today (row 0 is today), with that day's
    recorded total, or 0 when the ledger has no record for it, and the 14
    keys are pairwise different, as the keys of a rendered list have to
    be. *)
Theorem history_rows (zone : Zone) (h : History) (now : Moment) :
  validDate (fields now) →
  (∀ i, (i < 14)%nat → lands zone now i) →
  let today := fields now in
  List.length (rows zone h now) = 14%nat ∧
  NoDup (rows zone h now).*1 ∧
  (rows zone h now).*1 !! O = Some (todayKey today) ∧
  ∀ i, (i < 14)%nat →
    ∃ t, rows zone h now !! i = Some (todayKeyForDate (daysBefore i today), t) ∧
         (entries h !! todayKeyForDate (daysBefore i today) = None → t = 0) ∧
         (∀ r, entries h !! todayKeyForDate (daysBefore i today) = Some r →
               t = total r).
Proof.
  intros Hv Hl today. subst today.
  assert (Hrows : rows zone h now =
    (λ i, (dayKey i (fields now),
           match entries h !! dayKey i (fields now) with
           | Some r => total r
           | None => 0
           end))
      <$> seq 0 14).
  { unfold rows. apply map_ext_in. intros i Hi%in_seq.
    apply row_spec; [done|]. apply Hl. lia. }
  split; [by rewrite Hrows, length_fmap, length_seq|].
  split; [|split].
  - rewrite Hrows, <- list_fmap_compose.
    apply NoDup_fmap_2_strong; [|apply NoDup_seq].
    intros i j _ _ Hij. by apply (dayKey_inj (fields now)).
  - by rewrite Hrows.
  - intros i Hi. rewrite Hrows, list_lookup_fmap, lookup_seq_lt by done. cbn.
    eexists. split; [reflexivity|]. unfold dayKey.
    split; [by intros -> | by intros r ->].
Qed.

Lemma history_rows_witness :
  let now := Samples.at_ Samples.march1 12 0 in
  let h := Samples.ledger 0 [("2024-02-29", 3)] in
  validDate (fields now) ∧
  (rows Samples.utc h now).*1 !! 1%nat = Some "2024-02-29" ∧
  List.length (rows Samples.utc h now) = 14%nat.
Proof.
  intros now h.
  assert (Hv : validDate (fields now)) by exact valid_march1.
  split; [exact Hv|].
  destruct (history_rows Samples.utc h now Hv
              (λ i _, keepsDay_lands Samples.utc now i keepsDay_utc))
    as (Hlen & _ & _ & Hrow).
  split; [|exact Hlen].
  destruct (Hrow 1%nat ltac:(lia)) as (t & Ht & _).
  rewrite list_lookup_fmap, Ht. reflexivity.
Defined.



End HistoryViewProperties.

(** ** Releasing, and the older controller *)

Section HoldProperties.
Import Timers.

Lemma clearTimer_timers h w :
  timers (clearTimer h w) =
  List.filter (λ t, negb (handle t =? h)%nat) (timers w).
Proof. done. Qed.

Lemma filter_filter {A} (f g : A → bool) l :
  List.filter f (List.filter g l) = List.filter (λ x, g x && f x) l.
Proof.
  induction l as [|x l IH]; [done|]. cbn.
  destruct (g x); cbn; [destruct (f x)|]; by rewrite IH.
Qed.

(** X10. A release, in whatever state it finds the controller (armed,
    idle, or holding handles of timers that fired or were cleared long
    ago): fires no tick, leaves both handles [null], removes from the
    timer table exactly the timers the two handles named and no other,
    and a second release right after it changes nothing. *)
Theorem release_cancels_only_its_own (w : World) :
  ticks (Hold.stopHold w) = ticks w ∧
  now (Hold.stopHold w) = now w ∧
  ref (Hold.stopHold w) = {| delay := None; repeat := None |} ∧
  timers (Hold.stopHold w) =
    List.filter (λ t, bool_decide (Some (handle t) ≠ delay (ref w)) &&
                      bool_decide (Some (handle t) ≠ repeat (ref w)))
                (timers w) ∧
  Hold.stopHold (Hold.stopHold w) = Hold.stopHold w.
Proof.
  assert (Hfilter : ∀ (l : list Timer) a b,
    (∀ t, a t = b t) → List.filter a l = List.filter b l).
  { intros l a b Hab. induction l as [|t l IH]; [done|]. cbn.
    by rewrite Hab, IH. }
  assert (Hsome : ∀ a b : nat,
    bool_decide (Some a ≠ Some b) = negb (a =? b)%nat).
  { intros a b. destruct (Nat.eqb_spec a b) as [->|Hne]; cbn.
    - by apply bool_decide_eq_false_2; intros H; apply H.
    - apply bool_decide_eq_true_2. congruence. }
  assert (Hall : ∀ l : list Timer, List.filter (λ _, true) l = l).
  { intros l. induction l as [|t l IH]; [done|]. cbn. by rewrite IH. }
  destruct w as [n ts nh [[d|] [r|]] tk]; unfold Hold.stopHold, clearBoth; cbn.
  - split; [done|]. split; [done|]. split; [done|]. split.
    + rewrite filter_filter. apply Hfilter. intros t. by rewrite !Hsome.
    + done.
  - split; [done|]. split; [done|]. split; [done|]. split; [|done].
    apply Hfilter. intros t. by rewrite Hsome, andb_true_r.
  - split; [done|]. split; [done|]. split; [done|]. split; [|done].
    apply Hfilter. intros t. by rewrite Hsome.
  - split; [done|]. split; [done|]. split; [done|]. split; [|done].
    by rewrite <- (Hall ts) at 1.
Qed.

Lemma tick1_legacy_delay w h d :
  timers w = [{| handle := h; due := d; kind := Timeout; callback := TickThenArm |}] →
  ref w = {| delay := Some h; repeat := None |} →
  tick1 w =
    if d <=? now w + 1 then
      {| now := now w + 1;
         timers := [{| handle := nextHandle w; due := now w + 1 + 150;
                       kind := Interval 150; callback := Tick |}];
         nextHandle := S (nextHandle w);
         ref := {| delay := Some h; repeat := Some (nextHandle w) |};
         ticks := ticks w ++ [now w + 1] |}
    else later w.
Proof.
  intros Ht Hr. unfold tick1, dueHandles. cbn. rewrite Ht. cbn.
  destruct (d <=? now w + 1); cbn; [|done].
  unfold fire. cbn. rewrite Ht. cbn. rewrite Nat.eqb_refl. cbn.
  rewrite Ht, Hr. cbn. by rewrite Nat.eqb_refl.
Qed.

Lemma legacy_startHold_idle w :
  idle w →
  HoldLegacy.startHold w =
    {| now := now w;
       timers := [{| handle := nextHandle w; due := now w + 300;
                     kind := Timeout; callback := TickThenArm |}];
       nextHandle := S (nextHandle w);
       ref := {| delay := Some (nextHandle w); repeat := None |};
       ticks := ticks w |}.
Proof. intros [Ht Hr]. unfold HoldLegacy.startHold. cbn. by rewrite Ht, Hr. Qed.

(** The world [n] ms into a press of the older variant. *)
Lemma elapse_legacy_startHold n : ∀ w,
  idle w →
  ((n < 300)%nat →
   elapse n (HoldLegacy.startHold w) =
     {| now := now w + Z.of_nat n;
        timers := [{| handle := nextHandle w; due := now w + 300;
                      kind := Timeout; callback := TickThenArm |}];
        nextHandle := S (nextHandle w);
        ref := {| delay := Some (nextHandle w); repeat := None |};
        ticks := ticks w |}) ∧
  (∀ k r, n = (300 + 150 * k + r)%nat → (r < 150)%nat →
   elapse n (HoldLegacy.startHold w) =
     {| now := now w + Z.of_nat n;
        timers := [{| handle := S (nextHandle w);
                      due := now w + 300 + 150 * (Z.of_nat k + 1);
                      kind := Interval 150; callback := Tick |}];
        nextHandle := S (S (nextHandle w));
        ref := {| delay := Some (nextHandle w);
                  repeat := Some (S (nextHandle w)) |};
        ticks := ticks w ++ (now w + 300) :: every k 150 (now w + 300) |}).
Proof.
  induction n as [|n IH]; intros w Hw.
  - split; [|intros; lia]. intros _. rewrite legacy_startHold_idle by done.
    cbn. f_equal. lia.
  - destruct (IH w Hw) as [IHshort IHrep].
    change (elapse (S n) (HoldLegacy.startHold w))
      with (tick1 (elapse n (HoldLegacy.startHold w))).
    split.
    + intros Hn. rewrite IHshort by lia.
      erewrite tick1_legacy_delay by reflexivity. cbn [now].
      rewrite (proj2 (Z.leb_gt _ _)) by lia.
      apply world_ext; cbn; try done. lia.
    + intros k r Hn Hr.
      destruct (decide (k = O ∧ r = O)) as [[-> ->]|Hkr].
      * rewrite IHshort by lia.
        erewrite tick1_legacy_delay by reflexivity. cbn [now nextHandle ticks].
        rewrite (proj2 (Z.leb_le _ _)) by lia.
        apply world_ext; cbn; try done; [lia| |].
        -- do 2 f_equal. lia.
        -- do 2 f_equal. lia.
      * destruct r as [|r].
        -- destruct k as [|k]; [lia|].
           rewrite (IHrep k 149%nat) by lia.
           erewrite tick1_armedRepeat by (split; reflexivity).
           cbn [now nextHandle ticks ref].
           rewrite (proj2 (Z.leb_le _ _)) by lia.
           rewrite every_snoc.
           apply world_ext; cbn [now timers nextHandle ref ticks]; try done.
           ++ lia.
           ++ do 2 f_equal. lia.
           ++ rewrite <- app_assoc. cbn [app].
              replace (now w + Z.of_nat n + 1)
                with (now w + 300 + 150 * (Z.of_nat k + 1)) by lia.
              done.
        -- rewrite (IHrep k r) by lia.
           erewrite tick1_armedRepeat by (split; reflexivity).
           cbn [now nextHandle ticks ref].
           rewrite (proj2 (Z.leb_gt _ _)) by lia.
           apply world_ext; cbn; try done. lia.
Qed.

(** X11. The older variant of the controller, from an idle state.  A
    press fires nothing.  Released before 300 ms, it fires its one tick at
    the release.  Held 300 ms or more, it ticks when the delay fires, 300
    ms after the press, and then every 150 ms; the release adds nothing.
    In both cases no timer is left, and for every hold duration the older
    variant fires exactly as many ticks as the one in [App.tsx]. *)
Theorem legacy_hold_press_release (w : World) (D : nat) :
  idle w →
  let released := HoldLegacy.stopHold (elapse D (HoldLegacy.startHold w)) in
  ticks (HoldLegacy.startHold w) = ticks w ∧
  ((D < 300)%nat → ticks released = ticks w ++ [now w + Z.of_nat D]) ∧
  ((300 ≤ D)%nat →
   ticks released =
     ticks w ++ (now w + 300) :: every ((D - 300) / 150) 150 (now w + 300)) ∧
  idle released ∧
  List.length (ticks released) =
    List.length (ticks (Hold.stopHold (elapse D (Hold.startHold w)))).
Proof.
  intros Hw. cbn zeta.
  destruct (elapse_legacy_startHold D w Hw) as [Hshort Hrep].
  destruct (held_state w D Hw) as (_ & Hcur_short & Hcur_rep).
  split; [by rewrite legacy_startHold_idle|].
  destruct (Nat.lt_ge_cases D 300) as [HD|HD].
  - rewrite Hshort by done.
    destruct (Hcur_short HD) as [Ha Hticks].
    destruct (stopHold_armedShort _ _ _ Ha) as (_ & Hstop & _).
    rewrite Hticks in Hstop.
    set (cur := Hold.stopHold (elapse D (Hold.startHold w))) in *. clearbody cur.
    unfold HoldLegacy.stopHold, clearBoth, idle. cbn. rewrite Nat.eqb_refl. cbn.
    split; [done|]. split; [lia|]. split; [done|].
    rewrite Hstop, !length_app. done.
  - pose proof (Nat.div_mod_eq (D - 300) 150) as Hdm.
    pose proof (Nat.mod_upper_bound (D - 300) 150 ltac:(lia)) as Hr.
    rewrite (Hrep ((D - 300) / 150)%nat ((D - 300) mod 150)%nat) by lia.
    destruct (Hcur_rep HD) as [Ha Hticks].
    destruct (stopHold_armedRepeat _ _ _ _ Ha) as (_ & Hstop & _).
    rewrite Hticks in Hstop.
    set (cur := Hold.stopHold (elapse D (Hold.startHold w))) in *. clearbody cur.
    match goal with |- context [HoldLegacy.stopHold ?l] => set (held := l) end.
    assert (Hl : Hold.armedRepeat (nextHandle w) (S (nextHandle w))
                   (now w + 300 + 150 * (Z.of_nat ((D - 300) / 150) + 1)) held)
      by (by split).
    assert (Hsame : HoldLegacy.stopHold held = Hold.stopHold held) by done.
    rewrite Hsame.
    destruct (stopHold_armedRepeat _ _ _ _ Hl) as (Hidle & Hlt & _).
    rewrite Hlt. split; [lia|]. split; [done|]. split; [done|].
    rewrite Hstop. cbn [ticks held]. by rewrite !length_app.
Qed.

Lemma legacy_hold_press_release_witness :
  idle Samples.idleWorld ∧
  ticks (HoldLegacy.stopHold (elapse 200 (HoldLegacy.startHold Samples.idleWorld)))
    = [1200] ∧
  ticks (HoldLegacy.stopHold (elapse 700 (HoldLegacy.startHold Samples.idleWorld)))
    = [1300; 1450; 1600].
Proof.
  assert (Hw : idle Samples.idleWorld) by (split; reflexivity).
  split; [exact Hw|]. split.
  - destruct (legacy_hold_press_release Samples.idleWorld 200 Hw) as (_ & Hshort & _).
    apply Hshort. lia.
  - destruct (legacy_hold_press_release Samples.idleWorld 700 Hw) as (_ & _ & Hlong & _).
    apply Hlong. lia.
Defined.

End HoldProperties.

(** ** The bead track *)

Section BeadFacts.
Import Core Beads.

Lemma glowIndex_five c :
  Z.abs (c - 106) ≤ 2 ^ 53 →
  glowIndex 5 c =
    if (c + 2) mod 108 <=? 4 then Some ((c + 2) mod 108) else None.
Proof.
  intros Hexact.
  unfold glowIndex. change ((5 - 1) / 2) with 2.
  destruct (Z.eqb_spec c 0) as [->|Hc]; [reflexivity|].
  rewrite round_exact by done.
  assert (Hr : Z.rem (Z.rem (c - 106) 108 + 108) 108 = (c + 2) mod 108).
  { Z.to_euclidean_division_equations. lia. }
  rewrite Hr.
  pose proof (Z.mod_pos_bound (c + 2) 108 ltac:(lia)) as Hb.
  set (m := (c + 2) mod 108) in *. clearbody m.
  destruct (Z.leb_spec m 4).
  - rewrite (proj2 (Z.leb_le 106 (m + 106))) by lia.
    rewrite (proj2 (Z.leb_le (m + 106) 110)) by lia. cbn [andb].
    rewrite (proj2 (Z.leb_le 0 (2 + (m + 106 - 108)))) by lia.
    rewrite (proj2 (Z.ltb_lt (2 + (m + 106 - 108)) 5)) by lia. cbn [andb].
    f_equal. lia.
  - rewrite (proj2 (Z.leb_gt (m + 106) 110)) by lia.
    by rewrite andb_false_r.
Qed.

Lemma length_applyGlow c (bs : list Bead) : List.length (applyGlow c bs) = List.length bs.
Proof.
  unfold applyGlow. destruct (glowIndex _ _).
  - by rewrite length_alter, length_fmap.
  - by rewrite length_fmap.
Qed.







Lemma rotate_createBeads k :
  ∃ j, (j < 5)%nat ∧ rotate k createBeads = rotate j createBeads.
Proof.
  exists (k mod 5)%nat. split; [apply Nat.mod_upper_bound; lia|].
  unfold rotate. change (List.length createBeads) with 5%nat.
  by rewrite Nat.Div0.mod_mod.
Qed.


Lemma removeGlow_rotate k :
  removeGlow <$> rotate k createBeads = rotate k createBeads.
Proof.
  destruct (rotate_createBeads k) as (j & Hj & ->).
  do 5 (destruct j as [|j]; [reflexivity|]). lia.
Qed.










End BeadFacts.

Section BeadProperties.
Import Core Beads.

(** X12. On five beads, for every integer [current] for which
    [current - 106] is exact (at most 2^53 in size), [applyGlow(current)]
    keeps the beads and their order and leaves the [glow] class on bead
    [i] exactly when [i] is [(current + 2) mod 108]: on one bead when that
    is at most 4, on none otherwise.  So the centre bead glows exactly at
    the multiples of 108, 0 included, and the separate case for
    [current === 0] gives what the general formula gives. *)
Theorem glow_window (current : Z) (bs : list Bead) :
  List.length bs = beadCount →
  Z.abs (current - 106) ≤ 2 ^ 53 →
  ident <$> applyGlow current bs = ident <$> bs ∧
  (∀ i, (i < beadCount)%nat →
        glow <$> applyGlow current bs !! i =
          Some (bool_decide (Z.of_nat i = (current + 2) mod 108))) ∧
  (glow <$> applyGlow current bs !! 2%nat = Some true ↔ current mod 108 = 0).
Proof.
  intros Hlen Hexact.
  assert (Hident : ident <$> applyGlow current bs = ident <$> bs).
  { unfold applyGlow. destruct (glowIndex _ _) as [i|].
    - rewrite (list_fmap_alter ident addGlow id)
        by (apply Forall_true; by intros []).
      rewrite list_alter_id by done.
      rewrite <- list_fmap_compose. by apply list_fmap_ext.
    - rewrite <- list_fmap_compose. by apply list_fmap_ext. }
  assert (Hglow : ∀ i, (i < beadCount)%nat →
            glow <$> applyGlow current bs !! i =
              Some (bool_decide (Z.of_nat i = (current + 2) mod 108))).
  { unfold applyGlow. rewrite Hlen. change (Z.of_nat beadCount) with 5.
    rewrite glowIndex_five by done.
    pose proof (Z.mod_pos_bound (current + 2) 108 ltac:(lia)) as Hm.
    set (m := (current + 2) mod 108) in *. clearbody m.
    destruct bs as [|b0 [|b1 [|b2 [|b3 [|b4 [|b5 bs]]]]]]; try discriminate Hlen.
    unfold beadCount. intros i Hi.
    destruct (Z.leb_spec m 4) as [Hle|Hgt].
    - assert (m = 0 ∨ m = 1 ∨ m = 2 ∨ m = 3 ∨ m = 4) as Hcases by lia.
      destruct Hcases as [->|[->|[->|[->| ->]]]];
        do 5 (destruct i as [|i]; [reflexivity|]); lia.
    - rewrite bool_decide_eq_false_2 by lia.
      do 5 (destruct i as [|i]; [reflexivity|]). lia. }
  split; [done|]. split; [done|].
  rewrite Hglow by (unfold beadCount; lia).
  split.
  - intros [= Hb]. apply bool_decide_eq_true_1 in Hb.
    Z.to_euclidean_division_equations; lia.
  - intros Hz. f_equal. apply bool_decide_eq_true_2.
    Z.to_euclidean_division_equations; lia.
Qed.

Lemma glow_window_witness :
  glow <$> applyGlow 108 createBeads !! 2%nat = Some true ∧
  glow <$> applyGlow 1 createBeads !! 3%nat = Some true.
Proof.
  destruct (glow_window 108 createBeads) as (_ & _ & Hcentre);
    [reflexivity|cbn; lia|].
  destruct (glow_window 1 createBeads) as (_ & Hone & _);
    [reflexivity|cbn; lia|].
  split.
  - apply Hcentre. reflexivity.
  - rewrite (Hone 3%nat) by (unfold beadCount; lia). reflexivity.
Defined.






(** X16. When the beads move.  On a tally that is a safe integer (below
    2^53 in size, where adding and subtracting 1 are exact) a tick of +
    always makes the track step forward, and a tick of - makes it step back
    unless the tally is 0 and the last tick was a - as well: at 0 after a +
    the beads slide back although the tally stays 0.  At 2^53 after a +,
    where adding 1 rounds back to the tally, another + moves no bead.
    Reset makes the track step, in the direction of the last tick, exactly
    when the tally was not 0. *)
Theorem beads_move_when (s : App) :
  (Double.safe (count s) →
   rendered s (increment 1 s) = [Render inc (Z.max 0 (count s + 1))]) ∧
  (Double.safe (count s) →
   (rendered s (decrement 1 s) = [] ↔ count s = 0 ∧ direction s = dec)) ∧
  (count s = 0 → direction s = inc →
   count (decrement 1 s) = 0 ∧ rendered s (decrement 1 s) = [Render dec 0]) ∧
  (count s = 2 ^ 53 → direction s = inc → rendered s (increment 1 s) = []) ∧
  (rendered s (reset s) = [] ↔ count s = 0) ∧
  (count s ≠ 0 → rendered s (reset s) = [Render (direction s) 0]).
Proof.
  assert (Hdd : direction (decrement 1 s) = dec).
  { unfold decrement, doVibrate. cbn. repeat (case_match; cbn); done. }
  assert (Hid : direction (increment 1 s) = inc).
  { unfold increment, doVibrate. cbn. repeat (case_match; cbn); done. }
  pose proof (count_decrement 1 s) as Hdc.
  pose proof (count_increment 1 s) as Hic.
  unfold rendered. rewrite Hdd, Hid, Hdc, Hic.
  cbn [reset setCount count direction].
  split; [|split; [|split; [|split; [|split]]]].
  - unfold Double.safe. intros Hs. rewrite round_exact by lia.
    destruct (Z.eqb_spec (count s) (Z.max 0 (count s + 1))); [lia|done].
  - unfold Double.safe. intros Hs. rewrite round_exact by lia.
    destruct (Z.eqb_spec (count s) (Z.max 0 (count s - 1))),
      (direction s); cbn; (split; [intros Hn|intros [H1 H2]]);
      try done; try lia; split; [lia|done].
  - intros H0 Hd. rewrite H0, Hd. done.
  - intros H0 Hd. rewrite H0, Hd. reflexivity.
  - destruct (Z.eqb_spec (count s) 0), (direction s); cbn; naive_solver.
  - intros Hn. destruct (Z.eqb_spec (count s) 0); [done|]. done.
Qed.

Lemma beads_move_when_witness :
  let s := Samples.app 0 (Samples.ledger 0 []) in
  rendered s (increment 1 s) = [Render inc 1] ∧
  count (decrement 1 s) = 0 ∧
  rendered s (decrement 1 s) = [Render dec 0].
Proof.
  intros s. destruct (beads_move_when s) as (Hinc & _ & Hdec & _).
  split.
  - apply Hinc. unfold Double.safe. cbn. lia.
  - apply Hdec; reflexivity.
Defined.

End BeadProperties.

(** ** Storage: what the loaders return on every host *)

Section LoaderFacts.
Import Storage.

Lemma settingsObject_dom s k :
  is_Some (settingsObject s !! k) ↔
  k = "vibrate" ∨ k = "vibrateMs" ∨ k = "autoResetAfterLog"
  ∨ k = "hapticsOnDecrement".
Proof.
  split.
  - unfold settingsObject. rewrite <- !insert_empty.
    rewrite !lookup_insert_is_Some, lookup_empty.
    intros [<-|[_ [<-|[_ [<-|[_ [<-|[_ H]]]]]]]]; auto. by destruct H.
  - intros [->|[->|[->| ->]]]; by eexists.
Qed.

Lemma spread2_settingsObject d s :
  spread2 (settingsObject d) (settingsObject s) = settingsObject s.
Proof.
  unfold spread2. apply map_eq. intros k.
  destruct (settingsObject s !! k) as [v|] eqn:Hk.
  - by apply lookup_union_Some_l.
  - apply lookup_union_None. split; [done|].
    apply eq_None_not_Some. rewrite settingsObject_dom.
    rewrite <- (settingsObject_dom s), Hk. by intros [? ?].
Qed.

End LoaderFacts.

Section LoaderProperties.
Import Storage.

(** X18. On every host the object [loadSettings] returns has all four
    settings, whatever the stored text holds or lacks; and when the stored
    text parses to an object with exactly the four settings, as
    [saveSettings] writes it, that object comes back unchanged. *)
Theorem loadSettings_has_every_setting (host : Host) :
  ∃ m, loadSettings host = Returns m ∧
    (∀ k, k = "vibrate" ∨ k = "vibrateMs" ∨ k = "autoResetAfterLog"
          ∨ k = "hapticsOnDecrement" → is_Some (m !! k)) ∧
    (∀ raw s,
       getItem host SETTINGS = Returns (Some raw) →
       raw ≠ "" →
       parse host raw = Returns (JObject (settingsObject s)) →
       m = settingsObject s).
Proof.
  assert (Hd : ∀ k, k = "vibrate" ∨ k = "vibrateMs" ∨ k = "autoResetAfterLog"
                    ∨ k = "hapticsOnDecrement" →
               is_Some (settingsObject defaultSettings !! k))
    by (intros k; apply settingsObject_dom).
  unfold loadSettings.
  destruct (getItem host SETTINGS) as [[raw|]|] eqn:Hget; cbn.
  2,3: by (eexists; split; [reflexivity|split; [done|intros ???; congruence]]).
  destruct raw as [|c r]; cbn.
  { eexists; split; [reflexivity|split; [done|]]. intros ?? [= <-]. done. }
  destruct (parse host (String c r)) as [p|] eqn:Hp; cbn.
  2:{ eexists; split; [reflexivity|split; [done|]].
      intros ?? [= <-]. congruence. }
  eexists; split; [reflexivity|]. split.
  - intros k Hk. unfold spread2. rewrite lookup_union_is_Some. right. auto.
  - intros raw' s [= <-] _ Hp'. rewrite Hp in Hp'. injection Hp' as ->.
    apply spread2_settingsObject.
Qed.

Lemma loadSettings_has_every_setting_witness :
  ∃ m, loadSettings
         (tableHost {[ SETTINGS := "saved" ]}
            {[ "saved" := JObject (settingsObject
                 {| vibrate := false; vibrateMs := 25;
                    autoResetAfterLog := true; hapticsOnDecrement := true |}) ]})
       = Returns m ∧
       m !! "vibrateMs" = Some (JNumber (ofZ 25)).
Proof.
  destruct (loadSettings_has_every_setting
              (tableHost {[ SETTINGS := "saved" ]}
                 {[ "saved" := JObject (settingsObject
                      {| vibrate := false; vibrateMs := 25;
                         autoResetAfterLog := true; hapticsOnDecrement := true |}) ]}))
    as (m & Hm & _ & Hsame).
  exists m. split; [exact Hm|].
  rewrite (Hsame "saved"
             {| vibrate := false; vibrateMs := 25;
                autoResetAfterLog := true; hapticsOnDecrement := true |});
    [reflexivity|reflexivity|discriminate|reflexivity].
Defined.

(** X19. [loadNumber] has no [try]: it throws exactly when
    [localStorage.getItem] throws.  [loadHistory] returns on every host,
    and what it returns is never [null] or another falsy value. *)
Theorem only_loadNumber_can_throw (host : Host) (key : string)
    (fallback : number) :
  (loadNumber host key fallback = Throws ↔ getItem host key = Throws) ∧
  (∃ v, loadHistory host = Returns v ∧ truthy v = true).
Proof.
  split.
  - unfold loadNumber. destruct (getItem host key) as [raw|]; cbn; [|done].
    split; intros H; discriminate H.
  - unfold loadHistory.
    destruct (getItem host HISTORY) as [[[|c r]|]|]; cbn;
      [by eexists| |by eexists|by eexists].
    destruct (parse host (String c r)) as [obj|]; cbn; [|by eexists].
    destruct (truthy obj) eqn:Ht; by eexists.
Qed.

End LoaderProperties.
